(** * SMIV SIMD convolution datapath and layer scheduling: embedding and proofs

    Shallow embedding of
      - [nnet_lib/src/core/smiv/convolution_simd.c]
      - [nnet_lib/src/arch/smiv.c]
      - [nnet_lib/src/core/scheduler.h]

    C [int] and [unsigned] values are integers of [Z]; a conversion to
    [unsigned] is written [u32] and reduces modulo 2^32.  [float] is IEEE
    binary32 with the operations of [SpecFloat] at precision 24 and maximal
    exponent 128.  A [v8fp_t] is a list of eight lanes, a [float*] buffer is
    flat memory indexed from the pointer. *)

From Stdlib Require Import ZArith List Bool Lia.
From Stdlib Require Import Floats.SpecFloat.
Import ListNotations.

Local Open Scope Z_scope.

(** ** Machine integers *)

Definition UINT_MOD : Z := 2 ^ 32.

(** Conversion of an integer value to [unsigned]. *)
Definition u32 (x : Z) : Z := x mod UINT_MOD.

(** Conversion of an [unsigned] value to [int] (two's complement). *)
Definition s32 (x : Z) : Z := if x <? 2 ^ 31 then x else x - UINT_MOD.

(** The [min] macro. *)
Definition min (a b : Z) : Z := if a <? b then a else b.

(** Modelled from the spec: the macro [FRAC_CEIL] is declared in
    [utility/utility.h], which is absent; the spec writes it as the ceiling
    of the quotient ([ceil(shiftRegSize/vectorWidth)]).  With C division it
    is the quotient plus one when the remainder is not zero. *)
Definition FRAC_CEIL (a b : Z) : Z :=
  Z.quot a b + (if Z.rem a b =? 0 then 0 else 1).

(** ** Scalars: IEEE binary32 *)

Definition float32 : Type := spec_float.

Definition fzero : float32 := S754_zero false.
Definition fadd : float32 -> float32 -> float32 := SFadd 24 128.
Definition fmul : float32 -> float32 -> float32 := SFmul 24 128.

(** Two floats denote the same number: they are the same datum, or both are
    zeros (of any sign).  This is C's [==] made reflexive on NaN. *)
Definition same_value (x y : float32) : Prop :=
  match x, y with
  | S754_zero _, S754_zero _ => True
  | _, _ => x = y
  end.

Definition is_zero (x : float32) : bool :=
  match x with S754_zero _ => true | _ => false end.

Definition is_finite (x : float32) : bool :=
  match x with S754_zero _ | S754_finite _ _ _ => true | _ => false end.

(** ** Counted loops

    [for (i = 0; i < n; i++) body] where the body assigns neither [i] nor
    [n]. *)

Fixpoint for_loop_from {S : Type} (count : nat) (i : Z)
         (body : Z -> S -> S) (s : S) : S :=
  match count with
  | O => s
  | Datatypes.S c => for_loop_from c (i + 1) body (body i s)
  end.

Definition for_loop {S : Type} (n : Z) (body : Z -> S -> S) (s : S) : S :=
  for_loop_from (Z.to_nat n) 0 body s.

(** ** Vector registers *)

Definition VECTOR_SIZE : Z := 8.

(** Modelled from the spec: [DATAPATH_WIDTH] and [SHIFT_REG_SIZE] are macros
    of the absent [core/smiv/params.h].  The spec gives pipe 0 the low half
    and pipe 1 the high half of the weights vector, so the datapath is half a
    vector wide; a shift register is two vector registers per pipe (the
    kernel declares them [v8fp_t pipe0_shift_reg[2]]). *)
Definition DATAPATH_WIDTH : Z := 4.
Definition SHIFT_REG_SIZE : Z := 16.

Definition SR_SIZE : Z := SHIFT_REG_SIZE / VECTOR_SIZE.

(** [v8fp_t]: eight [float] lanes. *)
Definition v8fp_t : Type := list float32.

(** The literal [(v8fp_t){ 0, 0, 0, 0, 0, 0, 0, 0 }] (and [(v8fp_t){ 0 }]). *)
Definition v8fp_zero : v8fp_t := repeat fzero 8.

(** Replace element [n] of a list; a position past the end changes nothing. *)
Fixpoint upd {A : Type} (n : nat) (x : A) (l : list A) : list A :=
  match l, n with
  | [], _ => []
  | _ :: t, O => x :: t
  | h :: t, Datatypes.S m => h :: upd m x t
  end.

(** Lane read [v[i]] and lane write [v[i] = x].  Lane indices are values of
    [unsigned] variables or loop counters, hence not negative. *)
Definition vget (v : v8fp_t) (i : Z) : float32 := nth (Z.to_nat i) v fzero.
Definition vset (v : v8fp_t) (i : Z) (x : float32) : v8fp_t :=
  upd (Z.to_nat i) x v.

(** A shift register [v8fp_t reg[SR_SIZE]]: [reg[u][l]]. *)
Definition shift_reg_t : Type := list v8fp_t.

Definition sr_get (reg : shift_reg_t) (u l : Z) : float32 :=
  vget (nth (Z.to_nat u) reg v8fp_zero) l.

Definition sr_set (reg : shift_reg_t) (u l : Z) (x : float32) : shift_reg_t :=
  upd (Z.to_nat u) (vset (nth (Z.to_nat u) reg v8fp_zero) l x) reg.

(** The register seen as one flat array of lanes. *)
Definition flat_lane (reg : shift_reg_t) (i : Z) : float32 :=
  sr_get reg (i / VECTOR_SIZE) (i mod VECTOR_SIZE).

Definition v8fp_wf (v : v8fp_t) : Prop := length v = 8%nat.

Definition shift_reg_wf (reg : shift_reg_t) : Prop :=
  length reg = 2%nat /\ Forall v8fp_wf reg.

(** ** [shift_reg_simd_lshift] and [shift_regs_simd_lshift] *)

(** One iteration of the loop [shift_reg_lshift]; the register is updated in
    place, so the source lane is read from the register as it is now. *)
Definition shift_reg_lshift_body (shamt : Z) (sr : Z) (shift_reg : shift_reg_t)
  : shift_reg_t :=
  let shidx := u32 (sr + shamt) in
  let sr0 := sr / VECTOR_SIZE in
  let sr1 := sr mod VECTOR_SIZE in
  let sr2 := shidx / VECTOR_SIZE in
  let sr3 := shidx mod VECTOR_SIZE in
  if shidx <? SHIFT_REG_SIZE
  then sr_set shift_reg sr0 sr1 (sr_get shift_reg sr2 sr3)
  else sr_set shift_reg sr0 sr1 fzero.

Definition shift_reg_simd_lshift (shift_reg : shift_reg_t) (shamt : Z)
  : shift_reg_t :=
  for_loop SHIFT_REG_SIZE (shift_reg_lshift_body shamt) shift_reg.

Definition shift_regs_lshift_body (shamt : Z) (sr : Z)
           (regs : shift_reg_t * shift_reg_t) : shift_reg_t * shift_reg_t :=
  let '(shift_reg0, shift_reg1) := regs in
  let shidx := u32 (sr + shamt) in
  let sr0 := sr / VECTOR_SIZE in
  let sr1 := sr mod VECTOR_SIZE in
  let sr2 := shidx / VECTOR_SIZE in
  let sr3 := shidx mod VECTOR_SIZE in
  if shidx <? SHIFT_REG_SIZE
  then (sr_set shift_reg0 sr0 sr1 (sr_get shift_reg0 sr2 sr3),
        sr_set shift_reg1 sr0 sr1 (sr_get shift_reg1 sr2 sr3))
  else (sr_set shift_reg0 sr0 sr1 fzero,
        sr_set shift_reg1 sr0 sr1 fzero).

Definition shift_regs_simd_lshift (shift_reg0 shift_reg1 : shift_reg_t)
           (shamt : Z) : shift_reg_t * shift_reg_t :=
  for_loop SHIFT_REG_SIZE (shift_regs_lshift_body shamt)
           (shift_reg0, shift_reg1).

(** ** [conv_macc_datapath_simd_fxp] *)

(** The loop [conv2d_dp_core]: one multiply-accumulate per lane and pipe. *)
Definition conv2d_dp_core (weights_buffer : v8fp_t)
           (pipe0_shift_reg pipe1_shift_reg : shift_reg_t)
           (j : Z) (acc : float32 * float32) : float32 * float32 :=
  let '(accum_result_0, accum_result_1) := acc in
  (fadd accum_result_0
        (fmul (vget weights_buffer j) (sr_get pipe0_shift_reg 0 j)),
   fadd accum_result_1
        (fmul (vget weights_buffer (j + DATAPATH_WIDTH))
              (sr_get pipe1_shift_reg 0 j))).

Record macc_state : Type := mk_macc_state {
  ms_pipe0 : shift_reg_t;
  ms_pipe1 : shift_reg_t;
  ms_psums_tmp_0 : v8fp_t;
  ms_psums_tmp_1 : v8fp_t
}.

(** One iteration of the loop [conv2d_dp_outer]. *)
Definition conv2d_dp_outer (weights_buffer : v8fp_t) (dp_shamt dp1_iters : Z)
           (psum_reg : Z) (s : macc_state) : macc_state :=
  let accum_result_0 := vget (ms_psums_tmp_0 s) psum_reg in
  let accum_result_1 := vget (ms_psums_tmp_1 s) psum_reg in
  let '(accum_result_0, accum_result_1) :=
    for_loop DATAPATH_WIDTH
             (conv2d_dp_core weights_buffer (ms_pipe0 s) (ms_pipe1 s))
             (accum_result_0, accum_result_1) in
  let psums_tmp_0 := vset (ms_psums_tmp_0 s) psum_reg accum_result_0 in
  let psums_tmp_1 :=
    if psum_reg <? dp1_iters
    then vset (ms_psums_tmp_1 s) psum_reg accum_result_1
    else ms_psums_tmp_1 s in
  let '(pipe0, pipe1) :=
    shift_regs_simd_lshift (ms_pipe0 s) (ms_pipe1 s) dp_shamt in
  mk_macc_state pipe0 pipe1 psums_tmp_0 psums_tmp_1.

(** [psums_0] and [psums_1] are arrays of one vector; the model passes that
    vector.  The result holds the shift registers and partial sums as the
    call leaves them. *)
Definition conv_macc_datapath_simd_fxp (weights_buffer : v8fp_t)
           (pipe0_shift_reg pipe1_shift_reg : shift_reg_t)
           (dp_shamt dp0_iters dp1_iters : Z)
           (psums_0 psums_1 : v8fp_t) : macc_state :=
  for_loop dp0_iters (conv2d_dp_outer weights_buffer dp_shamt dp1_iters)
           (mk_macc_state pipe0_shift_reg pipe1_shift_reg psums_0 psums_1).

(** ** [merge_psums_simd_fxp] *)

Definition merge_psums_double_tp (psums_0 psums_1 : v8fp_t)
           (i : Z) (result_tmp : v8fp_t) : v8fp_t :=
  let result_tmp :=
    vset result_tmp (2 * i)
         (fadd (vget result_tmp (2 * i)) (vget psums_0 i)) in
  vset result_tmp (2 * i + 1)
       (fadd (vget result_tmp (2 * i + 1)) (vget psums_1 i)).

Definition merge_psums_single_tp (psums_0 psums_1 : v8fp_t)
           (i : Z) (result_tmp : v8fp_t) : v8fp_t :=
  vset result_tmp i
       (fadd (vget result_tmp i) (fadd (vget psums_0 i) (vget psums_1 i))).

Definition merge_psums_simd_fxp (psums_0 psums_1 : v8fp_t) (double_tp : bool)
  : v8fp_t :=
  let result_tmp := v8fp_zero in
  if double_tp
  then for_loop (VECTOR_SIZE / 2) (merge_psums_double_tp psums_0 psums_1)
                result_tmp
  else for_loop VECTOR_SIZE (merge_psums_single_tp psums_0 psums_1)
                result_tmp.

(** ** Buffers and layer descriptors *)

(** A [float*] buffer: the flat memory it points to, indexed from the
    pointer. *)
Definition fbuf : Type := Z -> float32.

Definition buf_set (b : fbuf) (i : Z) (x : float32) : fbuf :=
  fun j => if j =? i then x else b j.

(** Load of one [v8fp_t] at vector index [vi] of a buffer. *)
Definition vec_load (b : fbuf) (vi : Z) : v8fp_t :=
  map (fun j => b (vi * VECTOR_SIZE + Z.of_nat j)) (seq 0 8).

(** Modelled from the spec: the macros [VEC_ARRAY_4D] and [VEC_ARRAY_3D] are
    declared in the absent [utility/utility.h].  The spec describes a flat
    contiguous buffer indexed as [image][channel][row][col] (activations),
    [kernel][channel][row][col] (weights) or [channel][row][col] (results)
    whose rows are a whole number of vectors; the innermost dimension of the
    vector view is the row width divided by [VECTOR_SIZE].  Both definitions
    give the index of a vector. *)
Definition VEC_ARRAY_4D (d1 d2 d3 : Z) (i0 i1 i2 i3 : Z) : Z :=
  ((i0 * d1 + i1) * d2 + i2) * (Z.quot d3 VECTOR_SIZE) + i3.

Definition VEC_ARRAY_3D (d1 d2 : Z) (i0 i1 i2 : Z) : Z :=
  (i0 * d1 + i1) * (Z.quot d2 VECTOR_SIZE) + i2.

(** Modelled from the spec: [layer_t] is declared in the absent [nnet_fwd.h];
    these are the fields the two source files read. *)
Record dims_t : Type := mk_dims {
  rows : Z;
  cols : Z;
  height : Z;
  align_pad : Z
}.

Record layer_t : Type := mk_layer {
  inputs : dims_t;
  weights : dims_t;
  outputs : dims_t;
  field_size : Z;
  field_stride : Z;
  c_padding : Z;
  result_in_temp : bool
}.

(** ** [convolution2d_smiv_1kernel_1channel_simd_fxp] *)

Module Conv.

Section Constants.
Variable curr_layer : layer_t.

Definition a_height : Z := rows (inputs curr_layer).
Definition a_width : Z := cols (inputs curr_layer).
Definition a_pad : Z := align_pad (inputs curr_layer).
Definition a_padded_width : Z := a_width + a_pad.

Definition result_height : Z := rows (outputs curr_layer).
Definition result_width : Z := cols (outputs curr_layer).
Definition result_pad : Z := align_pad (outputs curr_layer).
Definition result_padded_width : Z := result_width + result_pad.

Definition k_width : Z := cols (weights curr_layer).
Definition k_height : Z := height (inputs curr_layer).
Definition k_pad : Z := align_pad (weights curr_layer).
Definition k_stride : Z := field_stride curr_layer.
Definition k_padded_width : Z := k_width + k_pad.

Definition row_stride : Z := k_stride.
Definition col_stride : Z := 1.
Definition double_tp : bool := k_width <? DATAPATH_WIDTH.
Definition init_shamt : Z :=
  u32 (if double_tp then k_stride else DATAPATH_WIDTH).
Definition dp_shamt : Z :=
  u32 (if double_tp then k_stride * 2 else k_stride).
Definition input_fetches_per_row : Z := u32 (FRAC_CEIL a_width VECTOR_SIZE).
Definition last_input_pixel_start_col : Z := u32 (result_width * k_stride).
Definition has_boundary_case : bool :=
  last_input_pixel_start_col
  >? u32 (u32 (input_fetches_per_row - 1) * VECTOR_SIZE).

Definition max_psums_per_act : Z :=
  if k_stride =? 1 then
    if double_tp then DATAPATH_WIDTH else DATAPATH_WIDTH * 2
  else if k_stride =? 2 then
    if double_tp then Z.quot DATAPATH_WIDTH 2 else DATAPATH_WIDTH
  else if k_stride =? 4 then
    Z.quot DATAPATH_WIDTH 2
  else 0.

Definition end_row : Z := a_height - k_width + 1.
Definition end_col : Z :=
  s32 (if has_boundary_case
       then input_fetches_per_row
       else u32 (input_fetches_per_row - 1)).
Definition end_kern : Z := k_width.
Definition end_col_marker : Z := s32 (u32 (input_fetches_per_row - 1)).
End Constants.

(** The three buffers of a call and the log of activation loads: one entry
    [(row, col)] for every [_a[img][chan][row][col]] read, newest first. *)
Record conv_state : Type := mk_conv_state {
  cs_a : fbuf;
  cs_kernels : fbuf;
  cs_result : fbuf;
  cs_loads : list (Z * Z)
}.

(** The schedule of one column group: [(dp0_iters, dp1_iters, total_outpx)].
    The sum [remaining_per_dp + remainder] is at most [remaining_cols] and
    does not wrap. *)
Definition schedule (curr_layer : layer_t) (out_col : Z) : Z * Z * Z :=
  let remaining_cols := u32 (result_width curr_layer - out_col) in
  if double_tp curr_layer then
    let remaining_per_dp := remaining_cols / 2 in
    let remainder := remaining_cols mod 2 in
    let dp0_iters :=
      min (max_psums_per_act curr_layer) (remaining_per_dp + remainder) in
    let dp1_iters := min (max_psums_per_act curr_layer) remaining_per_dp in
    (dp0_iters, dp1_iters, u32 (dp0_iters + dp1_iters))
  else
    let remaining_per_dp := remaining_cols in
    let dp0_iters := min (max_psums_per_act curr_layer) remaining_per_dp in
    let dp1_iters := min (max_psums_per_act curr_layer) remaining_per_dp in
    (dp0_iters, dp1_iters, dp0_iters).

(** Load of the activations into the two shift registers; returns the
    registers and the loads made, newest first. *)
Definition load_activations (curr_layer : layer_t) (a : fbuf)
           (img chan row in_col : Z)
  : shift_reg_t * shift_reg_t * list (Z * Z) :=
  let pipe0_shift_reg := [v8fp_zero; v8fp_zero] in
  let pipe1_shift_reg := [v8fp_zero; v8fp_zero] in
  let _a := VEC_ARRAY_4D (k_height curr_layer) (a_height curr_layer)
                         (a_padded_width curr_layer) in
  let act_temp := vec_load a (_a img chan row in_col) in
  let pipe0_shift_reg := upd 0 act_temp pipe0_shift_reg in
  let pipe1_shift_reg := upd 0 act_temp pipe1_shift_reg in
  if negb (has_boundary_case curr_layer
           && (in_col =? end_col_marker curr_layer)) then
    let act_temp := vec_load a (_a img chan row (in_col + 1)) in
    (upd 1 act_temp pipe0_shift_reg, upd 1 act_temp pipe1_shift_reg,
     [(row, in_col + 1); (row, in_col)])
  else
    (pipe0_shift_reg, pipe1_shift_reg, [(row, in_col)]).

(** Load of one kernel row into the weights buffer. *)
Definition load_weights (curr_layer : layer_t) (kernels : fbuf)
           (kern chan kern_row : Z) : v8fp_t :=
  let weights_buffer := v8fp_zero in
  let _kernels := VEC_ARRAY_4D (k_height curr_layer) (k_width curr_layer)
                               (k_padded_width curr_layer) in
  let wgt_temp := vec_load kernels (_kernels kern chan kern_row 0) in
  if double_tp curr_layer then
    for_loop (k_width curr_layer)
             (fun w weights_buffer =>
                vset (vset weights_buffer w (vget wgt_temp w))
                     (DATAPATH_WIDTH + w) (vget wgt_temp w))
             weights_buffer
  else
    let bound := min (k_width curr_layer) VECTOR_SIZE in
    for_loop bound
             (fun w weights_buffer => vset weights_buffer w (vget wgt_temp w))
             weights_buffer.

(** One iteration of the loop [conv2d_kern_row]; the state is the load log
    and the two partial-sum registers. *)
Definition conv2d_kern_row (curr_layer : layer_t) (a kernels : fbuf)
           (img kern chan in_row in_col dp0_iters dp1_iters : Z)
           (kern_row : Z) (s : list (Z * Z) * v8fp_t * v8fp_t)
  : list (Z * Z) * v8fp_t * v8fp_t :=
  let '(loads, psums_0, psums_1) := s in
  let '(pipe0_shift_reg, pipe1_shift_reg, new_loads) :=
    load_activations curr_layer a img chan (in_row + kern_row) in_col in
  let weights_buffer := load_weights curr_layer kernels kern chan kern_row in
  let pipe1_shift_reg :=
    shift_reg_simd_lshift pipe1_shift_reg (init_shamt curr_layer) in
  let m := conv_macc_datapath_simd_fxp
             weights_buffer pipe0_shift_reg pipe1_shift_reg
             (dp_shamt curr_layer) dp0_iters dp1_iters psums_0 psums_1 in
  (new_loads ++ loads, ms_psums_tmp_0 m, ms_psums_tmp_1 m).

(** The loop [conv2d_commit]. *)
Definition conv2d_commit (curr_layer : layer_t) (chan out_row out_col : Z)
           (final_psums : v8fp_t) (j : Z) (result : fbuf) : fbuf :=
  let _result := VEC_ARRAY_3D (result_height curr_layer)
                              (result_padded_width curr_layer) in
  buf_set result
          (_result chan out_row (Z.quot out_col VECTOR_SIZE) * VECTOR_SIZE + j)
          (vget final_psums j).

(** One iteration of the loop [conv2d_col]; the state is the memory and
    [out_col]. *)
Definition conv2d_col (curr_layer : layer_t) (img kern chan in_row out_row : Z)
           (in_col : Z) (s : conv_state * Z) : conv_state * Z :=
  let '(st, out_col) := s in
  let '(dp0_iters, dp1_iters, total_outpx) := schedule curr_layer out_col in
  let psums_0 := v8fp_zero in
  let psums_1 := v8fp_zero in
  let '(loads, psums_0, psums_1) :=
    for_loop (end_kern curr_layer)
             (conv2d_kern_row curr_layer (cs_a st) (cs_kernels st)
                              img kern chan in_row in_col dp0_iters dp1_iters)
             (cs_loads st, psums_0, psums_1) in
  let final_psums :=
    merge_psums_simd_fxp psums_0 psums_1 (double_tp curr_layer) in
  let result :=
    for_loop total_outpx
             (conv2d_commit curr_layer chan out_row out_col final_psums)
             (cs_result st) in
  let out_col := s32 (u32 (out_col + total_outpx)) in
  let out_col := if out_col >=? result_width curr_layer then 0 else out_col in
  (mk_conv_state (cs_a st) (cs_kernels st) result loads, out_col).

(** The body of the loop [conv2d_row] for one [in_row]. *)
Definition conv2d_row_body (curr_layer : layer_t) (img kern chan : Z)
           (in_row out_row : Z) (st : conv_state) : conv_state :=
  let out_col := 0 in
  fst (for_loop (end_col curr_layer)
                (conv2d_col curr_layer img kern chan in_row out_row)
                (st, out_col)).

(** The loop [conv2d_row]: [in_row] advances by [row_stride] until it
    reaches [end_row].  [None] when the fuel does not suffice: as many
    passes as the fuel counts have not ended the loop. *)
Fixpoint conv2d_row (fuel : nat) (curr_layer : layer_t) (img kern chan : Z)
         (in_row out_row : Z) (st : conv_state) : option conv_state :=
  if in_row <? end_row curr_layer then
    match fuel with
    | O => None
    | S fuel' =>
        conv2d_row fuel' curr_layer img kern chan
                   (in_row + row_stride curr_layer) (out_row + 1)
                   (conv2d_row_body curr_layer img kern chan in_row out_row st)
    end
  else Some st.

(** The three pointers address disjoint objects, as in the callers of
    [smiv.c]; the call starts with an empty load log. *)
Definition convolution2d_smiv_1kernel_1channel_simd_fxp (fuel : nat)
           (a kernels : fbuf) (img kern chan : Z) (curr_layer : layer_t)
           (result : fbuf) : option conv_state :=
  conv2d_row fuel curr_layer img kern chan 0 0
             (mk_conv_state a kernels result []).

End Conv.

(** ** [smiv.c]: layer dispatch and the forward pass *)

(** A [float*] (or [layer_t*]) pointer value. *)
Definition ptr : Type := Z.

Definition layer_default : layer_t :=
  mk_layer (mk_dims 0 0 0 0) (mk_dims 0 0 0 0) (mk_dims 0 0 0 0) 0 0 0 false.

(** [layers[lnum]]. *)
Definition layer_at (layers : list layer_t) (lnum : Z) : layer_t :=
  nth (Z.to_nat lnum) layers layer_default.

(** [layers[i].result_in_temp = b].  An index outside the array is undefined
    in C; the model then leaves the array as it is. *)
Definition set_result_in_temp (layers : list layer_t) (i : Z) (b : bool)
  : list layer_t :=
  if (0 <=? i) && (i <? Z.of_nat (length layers)) then
    let l := layer_at layers i in
    upd (Z.to_nat i)
        (mk_layer (inputs l) (weights l) (outputs l) (field_size l)
                  (field_stride l) (c_padding l) b)
        layers
  else layers.

Module Smiv.

(** The functions that [smiv.c] calls and does not define act on the state
    of the machine, of a type [world] left open.  The macros [MAP_ARRAY] and
    [INVOKE_KERNEL] belong to the absent offload interface: mapping an array
    leaves the state alone and invoking a kernel calls it. *)
Section Layers.
Variable world : Type.

(** [copy_zeropad(a, curr_layer, pad, result)]. *)
Variable copy_zeropad : ptr -> layer_t -> Z -> ptr -> world -> world.
(** [grab_matrix_dma(weights, lnum, layers)] and the two DMA helpers for
    activations. *)
Variable grab_matrix_dma : ptr -> Z -> list layer_t -> world -> world.
Variable grab_input_activations_dma :
  ptr -> Z -> list layer_t -> world -> world.
Variable store_output_activations_dma :
  ptr -> Z -> list layer_t -> world -> world.
(** [convolution2d_smiv(a, kernels, curr_layer, result)]. *)
Variable convolution2d_smiv : ptr -> ptr -> layer_t -> ptr -> world -> world.

Definition convolution_layer_hw (activations weights : ptr)
           (layers : list layer_t) (lnum : Z) (result : ptr)
           (w : world) : world :=
  let curr_layer := layer_at layers lnum in
  let w := grab_matrix_dma weights lnum layers w in
  let w := grab_input_activations_dma activations lnum layers w in
  let w := convolution2d_smiv activations weights curr_layer result w in
  store_output_activations_dma result lnum layers w.

(** Returns the new state and the [result_buf] pointer. *)
Definition convolution_layer (activations weights : ptr)
           (layers : list layer_t) (lnum : Z) (result : ptr)
           (w : world) : world * ptr :=
  let curr_layer := layer_at layers lnum in
  if c_padding curr_layer >? 0 then
    let padding := Z.quot (field_size curr_layer - 1) 2 in
    let w := copy_zeropad activations curr_layer padding result w in
    let w := convolution_layer_hw result weights layers lnum activations w in
    (w, activations)
  else
    (convolution_layer_hw activations weights layers lnum result w, result).
End Layers.

Section Forward.
Variable world : Type.

(** [run_layer_skip_activation_func] is defined in the absent
    [arch/common.c]. *)
Variable run_layer_skip_activation_func :
  ptr -> ptr -> list layer_t -> Z -> ptr -> ptr -> world -> world * ptr.
(** [dmaStore(buffer, 0, 0, size)]. *)
Variable dmaStore : ptr -> world -> world.

Definition run_layer (activations weights : ptr) (layers : list layer_t)
           (layer_num : Z) (result sigmoid_table : ptr) (w : world)
  : world * ptr :=
  let '(w, result_loc) :=
    run_layer_skip_activation_func
      activations weights layers layer_num result sigmoid_table w in
  (w, result_loc).

(** [farray_t] by its field [d]; [network_t] by its fields [layers] (the
    pointer and the array it points to) and [depth]. *)
Record network_t : Type := mk_network {
  net_layers_ptr : ptr;
  net_layers : list layer_t;
  net_depth : Z
}.

(** One iteration of the loop [nnet_fwd_outer]; the state is the machine
    and [result_loc]. *)
Definition nnet_fwd_outer (activations_d weights_d result_d : ptr)
           (network : network_t) (sigmoid_table : ptr)
           (l : Z) (s : world * ptr) : world * ptr :=
  let '(w, result_loc) := s in
  if result_loc =? result_d then
    run_layer result_d weights_d (net_layers network) l
              activations_d sigmoid_table w
  else
    run_layer activations_d weights_d (net_layers network) l
              result_d sigmoid_table w.

(** The machine and [result_loc] after the first [n] layers. *)
Definition nnet_fwd_loop (activations_d weights_d result_d : ptr)
           (network : network_t) (sigmoid_table : ptr)
           (n : Z) (w : world) : world * ptr :=
  for_loop n
           (nnet_fwd_outer activations_d weights_d result_d network
                           sigmoid_table)
           (w, activations_d).

(** What a call of [nnet_fwd] leaves: the machine, the layer array with
    the flag of the last layer set, and the buffer handed to the first
    [dmaStore]. *)
Record fwd_result : Type := mk_fwd_result {
  fr_world : world;
  fr_layers : list layer_t;
  fr_result_loc : ptr;
  fr_stored : ptr
}.

Definition nnet_fwd (activations_d weights_d result_d : ptr)
           (network : network_t) (sigmoid_table : ptr) (w : world)
  : fwd_result :=
  let '(w, result_loc) :=
    nnet_fwd_loop activations_d weights_d result_d network sigmoid_table
                  (net_depth network) w in
  let layers :=
    set_result_in_temp (net_layers network) (net_depth network - 1)
                       (result_loc =? result_d) in
  let stored := if result_loc =? result_d then result_d else activations_d in
  let w := dmaStore stored w in
  let w := dmaStore (net_layers_ptr network) w in
  mk_fwd_result w layers result_loc stored.
End Forward.

Arguments mk_fwd_result {world} _ _ _ _.
Arguments fr_world {world} _.
Arguments fr_layers {world} _.
Arguments fr_result_loc {world} _.
Arguments fr_stored {world} _.

End Smiv.

(** ** [scheduler.h]: [runNetwork] *)

Module Scheduler.

Section Run.
Variables Vertex Operator Tensor world : Type.

(** The operator graph of a network: its vertices, its edges (from an
    operator to one that consumes its output) and the property map
    [vertex_op]. *)
Record Graph : Type := mk_graph {
  g_vertices : list Vertex;
  g_edges : list (Vertex * Vertex);
  g_vertex_op : Vertex -> Operator
}.

(** [boost::topological_sort(graph, out)]: the vertices written to the
    output iterator, in the order written; [None] when it throws
    [not_a_dag]. *)
Variable topological_sort : Graph -> option (list Vertex).
(** [op->run()] and [op->getOutput<Backend>(0)]. *)
Variable run : Operator -> world -> world.
Variable getOutput : Operator -> Z -> world -> Tensor.

(** [std::front_inserter(vertices)]: each vertex written goes to the front
    of the list. *)
Definition front_inserter (written : list Vertex) : list Vertex :=
  fold_left (fun vertices v => v :: vertices) written [].

(** The state of the loop over [vertices]: the machine, the variable
    [output] ([None] while not assigned) and the vertices whose operator
    has run, oldest first (the names sent to [dout]). *)
Record run_state : Type := mk_run_state {
  rs_world : world;
  rs_output : option Tensor;
  rs_ran : list Vertex
}.

Definition run_vertex (graph : Graph) (s : run_state) (v : Vertex)
  : run_state :=
  let op := g_vertex_op graph v in
  let w := run op (rs_world s) in
  let output := getOutput op 0 w in
  mk_run_state w (Some output) (rs_ran s ++ [v]).

(** [None] when [topological_sort] throws. *)
Definition runNetwork (graph : Graph) (w : world) : option run_state :=
  match topological_sort graph with
  | None => None
  | Some written =>
      let vertices := front_inserter written in
      Some (fold_left (run_vertex graph) vertices (mk_run_state w None []))
  end.
End Run.

Arguments mk_graph {Vertex Operator} _ _ _.
Arguments g_vertices {Vertex Operator} _.
Arguments g_edges {Vertex Operator} _.
Arguments g_vertex_op {Vertex Operator} _ _.
Arguments mk_run_state {Vertex Tensor world} _ _ _.
Arguments rs_world {Vertex Tensor world} _.
Arguments rs_output {Vertex Tensor world} _.
Arguments rs_ran {Vertex Tensor world} _.

End Scheduler.

(** ** Definitions used to state the properties *)

(** The shift as the specification words it: flat lane [i] takes the old
    value of flat lane [i + shamt], and zero when that lane does not
    exist. *)
Definition lshift_spec (reg : shift_reg_t) (shamt i : Z) : float32 :=
  if i + shamt <? SHIFT_REG_SIZE then flat_lane reg (i + shamt) else fzero.

(** A register of sixteen distinct lanes, used to instantiate the
    statements on shift registers. *)
Definition ramp (base : Z) : shift_reg_t :=
  [ map (fun j => S754_finite false 8388608 (base + Z.of_nat j)) (seq 0 8);
    map (fun j => S754_finite false 8388608 (base + 8 + Z.of_nat j))
        (seq 0 8) ].

(** The multiply-accumulate chain of one pipe: [acc += w[off + j] * reg[0][j]]
    for the lanes [j] of the datapath, in lane order. *)
Definition dot_product_acc (weights_buffer : v8fp_t) (off : Z)
           (reg : shift_reg_t) (acc : float32) : float32 :=
  for_loop DATAPATH_WIDTH
           (fun j acc =>
              fadd acc (fmul (vget weights_buffer (j + off)) (sr_get reg 0 j)))
           acc.

(** A register after [n] shifts by [shamt]. *)
Definition shifted (n : Z) (shamt : Z) (reg : shift_reg_t) : shift_reg_t :=
  for_loop n (fun _ r => shift_reg_simd_lshift r shamt) reg.

(** The state of the datapath after [n] iterations of [conv2d_dp_outer]. *)
Definition macc_inv (w : v8fp_t) (p0 p1 : shift_reg_t)
           (dp_shamt dp1_iters : Z) (psums_0 psums_1 : v8fp_t)
           (n : Z) (s : macc_state) : Prop :=
  ms_pipe0 s = shifted n dp_shamt p0
  /\ ms_pipe1 s = shifted n dp_shamt p1
  /\ v8fp_wf (ms_psums_tmp_0 s)
  /\ v8fp_wf (ms_psums_tmp_1 s)
  /\ (forall i, 0 <= i ->
        vget (ms_psums_tmp_0 s) i
        = if i <? n
          then dot_product_acc w 0 (shifted i dp_shamt p0) (vget psums_0 i)
          else vget psums_0 i)
  /\ (forall i, 0 <= i ->
        vget (ms_psums_tmp_1 s) i
        = if (i <? n) && (i <? dp1_iters)
          then dot_product_acc w DATAPATH_WIDTH (shifted i dp_shamt p1)
                               (vget psums_1 i)
          else vget psums_1 i).

(** The elements of the result buffer that belong to channel plane [chan]:
    the buffer is indexed [channel][row][col] with rows of
    [result_padded_width] elements. *)
Definition in_plane (curr_layer : layer_t) (chan idx : Z) : Prop :=
  chan * Conv.result_height curr_layer * Conv.result_padded_width curr_layer
  <= idx
  < (chan + 1) * Conv.result_height curr_layer
    * Conv.result_padded_width curr_layer.

(** What the data model asks of the output side of a layer descriptor, for
    the kernel: a positive stride, an output row that is a whole number of
    vectors, and a declared output height that holds the rows the row loop
    produces. *)
Record output_wf (curr_layer : layer_t) : Prop := mk_output_wf {
  owf_stride : 0 < Conv.k_stride curr_layer;
  owf_width : 0 <= Conv.result_width curr_layer < 2 ^ 31;
  owf_pad : 0 <= Conv.result_pad curr_layer;
  owf_align : Conv.result_padded_width curr_layer mod VECTOR_SIZE = 0;
  owf_rows : Conv.end_row curr_layer
             <= Conv.result_height curr_layer * Conv.k_stride curr_layer
}.

(** The same for the input side: a row of activations is a whole number of
    vectors. *)
Record input_wf (curr_layer : layer_t) : Prop := mk_input_wf {
  iwf_width : 0 <= Conv.a_width curr_layer < 2 ^ 31;
  iwf_pad : 0 <= Conv.a_pad curr_layer;
  iwf_align : Conv.a_padded_width curr_layer mod VECTOR_SIZE = 0
}.

(** An activation load of column vector [c] stays inside the padded row. *)
Definition load_in_row (curr_layer : layer_t) (ld : Z * Z) : Prop :=
  0 <= snd ld
  /\ snd ld * VECTOR_SIZE + VECTOR_SIZE <= Conv.a_padded_width curr_layer.

(** Fuel that lets the row loop of a layer with a positive stride finish. *)
Definition row_fuel (curr_layer : layer_t) : nat :=
  Z.to_nat (Conv.end_row curr_layer).

(** The state of the column loop: [out_col] is a column of the output row
    (or 0 when the row is empty). *)
Definition out_col_ok (curr_layer : layer_t) (out_col : Z) : Prop :=
  0 <= out_col < Conv.result_width curr_layer \/ out_col = 0.

(** A load of a column vector below [input_fetches_per_row]. *)
Definition load_fetched (curr_layer : layer_t) (ld : Z * Z) : Prop :=
  0 <= snd ld < Conv.input_fetches_per_row curr_layer.

(** *** Concrete inputs *)

(** The float 1.0. *)
Definition f_one : float32 := S754_finite false 8388608 (-23).

Definition zero_buf : fbuf := fun _ => fzero.
Definition ones_buf : fbuf := fun _ => f_one.

(** A 6x6 input (rows padded to 8), a 3x3 kernel, stride 1: a 4x4 output. *)
Definition stride1_layer : layer_t :=
  mk_layer (mk_dims 6 6 1 2) (mk_dims 3 3 1 5) (mk_dims 4 4 1 4) 3 1 0 false.

(** A 3x17 input (rows padded to 24), a 3x3 kernel, stride 2: one output
    row of 8 pixels. *)
Definition stride2_layer : layer_t :=
  mk_layer (mk_dims 3 17 1 7) (mk_dims 3 3 1 5) (mk_dims 1 8 1 0) 3 2 0 false.

(** The same input with stride 3: one output row of 5 pixels. *)
Definition stride3_layer : layer_t :=
  mk_layer (mk_dims 3 17 1 7) (mk_dims 3 3 1 5) (mk_dims 1 5 1 3) 3 3 0 false.

(** *** A machine that records calls

    Used to instantiate the statements on [smiv.c]: the state of the
    machine is the list of the calls made to the functions that [smiv.c]
    does not define, newest first. *)
Inductive event : Type :=
| EvZeroPad (src dst : ptr) (pad : Z)
| EvGrabMatrix (weights : ptr)
| EvGrabInput (activations : ptr)
| EvConv2d (activations weights result : ptr)
| EvStoreOutput (result : ptr)
| EvRunLayer (layer_num : Z) (src dst : ptr)
| EvDmaStore (buffer : ptr).

Definition log_world : Type := list event.

Definition log_copy_zeropad (a : ptr) (l : layer_t) (pad : Z) (result : ptr)
           (w : log_world) : log_world :=
  EvZeroPad a result pad :: w.
Definition log_grab_matrix_dma (weights : ptr) (lnum : Z)
           (layers : list layer_t) (w : log_world) : log_world :=
  EvGrabMatrix weights :: w.
Definition log_grab_input_activations_dma (activations : ptr) (lnum : Z)
           (layers : list layer_t) (w : log_world) : log_world :=
  EvGrabInput activations :: w.
Definition log_store_output_activations_dma (result : ptr) (lnum : Z)
           (layers : list layer_t) (w : log_world) : log_world :=
  EvStoreOutput result :: w.
Definition log_convolution2d_smiv (a kernels : ptr) (l : layer_t)
           (result : ptr) (w : log_world) : log_world :=
  EvConv2d a kernels result :: w.
Definition log_dmaStore (buffer : ptr) (w : log_world) : log_world :=
  EvDmaStore buffer :: w.

(** A layer runner in the manner of [convolution_layer]: a layer with
    padding leaves its output in the buffer it was given as [activations],
    any other layer in the one it was given as [result]. *)
Definition log_run_layer (activations weights : ptr) (layers : list layer_t)
           (layer_num : Z) (result sigmoid_table : ptr) (w : log_world)
  : log_world * ptr :=
  if c_padding (layer_at layers layer_num) >? 0
  then (EvRunLayer layer_num result activations :: w, activations)
  else (EvRunLayer layer_num activations result :: w, result).


Definition plain_layer : layer_t :=
  mk_layer (mk_dims 8 8 1 0) (mk_dims 3 3 1 5) (mk_dims 8 8 1 0) 3 1 0 false.
Definition padded_layer : layer_t :=
  mk_layer (mk_dims 8 8 1 0) (mk_dims 3 3 1 5) (mk_dims 8 8 1 0) 3 1 1 false.

(** Three layers, the second with padding. *)
Definition three_layers : Smiv.network_t :=
  Smiv.mk_network 400 [plain_layer; padded_layer; plain_layer] 3.

(** *** Orders of execution *)

(** [u] occurs before [v] in [l]. *)
Definition before {A : Type} (u v : A) (l : list A) : Prop :=
  exists l1 l2 l3, l = l1 ++ u :: l2 ++ v :: l3.

(** What the documentation of [boost::topological_sort] promises of the
    sequence written to the output iterator, for a directed acyclic graph:
    every vertex once, and for every edge [(u, v)] the vertex [v] before
    [u] (a reverse topological order). *)
Definition reverse_topological {Vertex Operator : Type}
           (graph : Scheduler.Graph Vertex Operator) (written : list Vertex)
  : Prop :=
  NoDup written
  /\ (forall v, In v written <-> In v (Scheduler.g_vertices graph))
  /\ (forall u v, In (u, v) (Scheduler.g_edges graph) -> before v u written).

(** A depth-first topological sort over vertices numbered by [nat], in the
    manner of the library: a vertex is written when its visit finishes, and
    an edge to a vertex whose visit has not finished is a cycle.  Used to
    instantiate the statement on [runNetwork]. *)
Record dfs_state : Type := mk_dfs_state {
  dfs_seen : list nat;
  dfs_open : list nat;
  dfs_written : list nat;
  dfs_cycle : bool
}.

Definition mem_nat (v : nat) (l : list nat) : bool := existsb (Nat.eqb v) l.

Fixpoint dfs_visit (fuel : nat) (succs : nat -> list nat) (s : dfs_state)
         (v : nat) : dfs_state :=
  match fuel with
  | O => mk_dfs_state (dfs_seen s) (dfs_open s) (dfs_written s) true
  | S fuel' =>
      if mem_nat v (dfs_open s) then
        mk_dfs_state (dfs_seen s) (dfs_open s) (dfs_written s) true
      else if mem_nat v (dfs_seen s) then s
      else
        let s1 := mk_dfs_state (v :: dfs_seen s) (v :: dfs_open s)
                               (dfs_written s) (dfs_cycle s) in
        let s2 := fold_left (dfs_visit fuel' succs) (succs v) s1 in
        mk_dfs_state (dfs_seen s2) (dfs_open s) (dfs_written s2 ++ [v])
                     (dfs_cycle s2)
  end.

Definition dfs_topological_sort {Operator : Type}
           (graph : Scheduler.Graph nat Operator) : option (list nat) :=
  let succs := fun u =>
    map snd (filter (fun e => Nat.eqb (fst e) u) (Scheduler.g_edges graph)) in
  let s := fold_left
             (dfs_visit (S (length (Scheduler.g_vertices graph))) succs)
             (Scheduler.g_vertices graph)
             (mk_dfs_state [] [] [] false) in
  if dfs_cycle s then None else Some (dfs_written s).

(** A diamond: operator 0 feeds 1 and 2, which feed 3.  The operator of a
    vertex is its number. *)
Definition diamond : Scheduler.Graph nat nat :=
  Scheduler.mk_graph [0; 1; 2; 3]%nat
                     [(0, 1); (0, 2); (1, 3); (2, 3)]%nat
                     (fun v => v).

(** ** Definitions used to state further properties *)

(** The multiply-accumulate chain of one pipe over a window of the flat
    register: [acc += w[off + j] * lane[start + j]] for the lanes [j] of the
    datapath, a lane past the end of the register counting as zero. *)
Definition window_acc (weights_buffer : v8fp_t) (off : Z)
           (reg : shift_reg_t) (start : Z) (acc : float32) : float32 :=
  for_loop DATAPATH_WIDTH
           (fun j acc =>
              fadd acc (fmul (vget weights_buffer (j + off))
                             (lshift_spec reg start j)))
           acc.

(** The flat index of the first weight of row [kern_row] of a kernel. *)
Definition kernel_row_base (curr_layer : layer_t) (kern chan kern_row : Z)
  : Z :=
  VEC_ARRAY_4D (Conv.k_height curr_layer) (Conv.k_width curr_layer)
               (Conv.k_padded_width curr_layer) kern chan kern_row 0
  * VECTOR_SIZE.

(** Number of layers among the first [n] for which [swaps] holds. *)
Definition count_swaps (swaps : Z -> bool) (n : Z) : Z :=
  for_loop n (fun l c => if swaps l then c + 1 else c) 0.

(** *** The convolution of one pixel, as the datapath accumulates it *)

(** Element [[img][chan][row][col]] of the activations and element
    [[chan][row][col]] of the result, rows being [a_padded_width] and
    [result_padded_width] elements long. *)
Definition a_index (curr_layer : layer_t) (img chan row col : Z) : Z :=
  ((img * Conv.k_height curr_layer + chan) * Conv.a_height curr_layer + row)
  * Conv.a_padded_width curr_layer + col.

Definition result_index (curr_layer : layer_t) (chan row col : Z) : Z :=
  (chan * Conv.result_height curr_layer + row)
  * Conv.result_padded_width curr_layer + col.

(** Weight [j] of row [kern_row] of the kernel, zero past the kernel
    width. *)
Definition weight_at (curr_layer : layer_t) (kernels : fbuf)
           (kern chan kern_row j : Z) : float32 :=
  if j <? Conv.k_width curr_layer
  then kernels (kernel_row_base curr_layer kern chan kern_row + j)
  else fzero.

(** The second vector of column group [g] is not fetched: the boundary case
    at the last fetch of a row. *)
Definition suppressed (curr_layer : layer_t) (g : Z) : bool :=
  Conv.has_boundary_case curr_layer
  && (g =? Conv.input_fetches_per_row curr_layer - 1).

(** The activation that the datapath sees [t] columns after the start of
    column group [g]: the element of the row, or zero in the second vector
    of the group when that vector is not fetched. *)
Definition tap (curr_layer : layer_t) (a : fbuf) (img chan row g t : Z)
  : float32 :=
  if (VECTOR_SIZE <=? t) && suppressed curr_layer g
  then fzero
  else a (a_index curr_layer img chan row (VECTOR_SIZE * g + t)).

(** One kernel row accumulated by one pipe: four products, of weights
    [woff .. woff + 4) with the activations [toff .. toff + 4) columns into
    the group. *)
Definition mac_row (curr_layer : layer_t) (a kernels : fbuf)
           (img kern chan row kern_row g woff toff : Z) (acc : float32)
  : float32 :=
  for_loop DATAPATH_WIDTH
           (fun j acc =>
              fadd acc
                   (fmul (weight_at curr_layer kernels kern chan kern_row
                                    (j + woff))
                         (tap curr_layer a img chan row g (j + toff))))
           acc.

(** The partial sum of one pipe for one pixel, over the first [n] kernel
    rows. *)
Definition partial_chain (curr_layer : layer_t) (a kernels : fbuf)
           (img kern chan orow g woff toff : Z) (n : Z) : float32 :=
  for_loop n
           (fun kern_row acc =>
              mac_row curr_layer a kernels img kern chan (orow + kern_row)
                      kern_row g woff toff acc)
           fzero.

(** The value of output pixel [(orow, ocol)].  In double-throughput mode
    one pipe accumulates the whole (narrow) kernel; in single-throughput
    mode pipe 0 accumulates kernel columns 0 to 3, pipe 1 columns 4 to 7,
    and the two partial sums are added. *)
Definition pixel_spec (curr_layer : layer_t) (a kernels : fbuf)
           (img kern chan orow ocol : Z) : float32 :=
  let g := ocol / VECTOR_SIZE in
  let p := ocol mod VECTOR_SIZE in
  let K := Conv.k_width curr_layer in
  if Conv.double_tp curr_layer
  then fadd fzero
            (partial_chain curr_layer a kernels img kern chan orow g 0 p K)
  else fadd fzero
            (fadd (partial_chain curr_layer a kernels img kern chan orow g
                                 0 p K)
                  (partial_chain curr_layer a kernels img kern chan orow g
                                 DATAPATH_WIDTH (p + DATAPATH_WIDTH) K)).

(** A stride-1 layer the kernel is made for: a kernel 1 to 8 wide, an
    output row of [a_width - k_width + 1] pixels, and rows of activations
    and of results that are whole numbers of vectors. *)
Record stride1_wf (curr_layer : layer_t) : Prop := mk_stride1_wf {
  s1_stride : Conv.k_stride curr_layer = 1;
  s1_kernel : 1 <= Conv.k_width curr_layer <= VECTOR_SIZE;
  s1_input : input_wf curr_layer;
  s1_width : Conv.result_width curr_layer
             = Conv.a_width curr_layer - Conv.k_width curr_layer + 1;
  s1_nonempty : 1 <= Conv.result_width curr_layer;
  s1_pad : 0 <= Conv.result_pad curr_layer;
  s1_align : Conv.result_padded_width curr_layer mod VECTOR_SIZE = 0
}.

(** The column loop of one output row of a stride-1 layer, after [g]
    column groups: [out_col] counts the pixels done, those pixels hold
    their value, and nothing outside the pixels of the row has changed. *)
Definition row_progress (curr_layer : layer_t) (a kernels : fbuf)
           (img kern chan row : Z) (st0 : Conv.conv_state)
           (g : Z) (s : Conv.conv_state * Z) : Prop :=
  Conv.cs_a (fst s) = a
  /\ Conv.cs_kernels (fst s) = kernels
  /\ (VECTOR_SIZE * g < Conv.result_width curr_layer ->
      snd s = VECTOR_SIZE * g)
  /\ (forall c, 0 <= c < VECTOR_SIZE * g ->
        c < Conv.result_width curr_layer ->
        Conv.cs_result (fst s) (result_index curr_layer chan row c)
        = pixel_spec curr_layer a kernels img kern chan row c)
  /\ (forall idx,
        ~ (result_index curr_layer chan row 0 <= idx
           < result_index curr_layer chan row 0
             + Conv.result_width curr_layer) ->
        Conv.cs_result (fst s) idx = Conv.cs_result st0 idx).

(** The runner of the three layers of [three_layers], whatever array it is
    handed, and the layers among them that have no padding. *)
Definition three_layers_run (activations weights : ptr)
           (layers : list layer_t) (layer_num : Z)
           (result sigmoid_table : ptr) (w : log_world) : log_world * ptr :=
  log_run_layer activations weights (Smiv.net_layers three_layers) layer_num
                result sigmoid_table w.

Definition three_layers_swaps (layer_num : Z) : bool :=
  negb (c_padding (layer_at (Smiv.net_layers three_layers) layer_num) >? 0).

(** The input of [stride3_layer] with stride 0. *)
Definition stride0_layer : layer_t :=
  mk_layer (mk_dims 3 17 1 7) (mk_dims 3 3 1 5) (mk_dims 1 5 1 3) 3 0 0 false.

(** * Proofs *)

(** ** Machine integers and loops *)

Lemma u32_small (x : Z) : 0 <= x < UINT_MOD -> u32 x = x.
Proof. intros H. unfold u32. apply Z.mod_small. exact H. Qed.

Lemma u32_range (x : Z) : 0 <= u32 x < UINT_MOD.
Proof. unfold u32, UINT_MOD. apply Z.mod_pos_bound. reflexivity. Qed.

Lemma s32_small (x : Z) : x < 2 ^ 31 -> s32 x = x.
Proof.
  intros H. unfold s32. destruct (x <? 2 ^ 31) eqn:E; [reflexivity|].
  apply Z.ltb_ge in E. lia.
Qed.

Lemma min_spec (a b : Z) : min a b = Z.min a b.
Proof. unfold min. destruct (a <? b) eqn:E; lia. Qed.

Lemma for_loop_from_ind {S : Type} (P : Z -> S -> Prop) (body : Z -> S -> S) :
  forall (count : nat) (i : Z) (s : S),
    P i s ->
    (forall j t, i <= j < i + Z.of_nat count -> P j t -> P (j + 1) (body j t)) ->
    P (i + Z.of_nat count) (for_loop_from count i body s).
Proof.
  induction count as [|c IH]; intros i s Hs Hstep; simpl for_loop_from.
  - replace (i + Z.of_nat 0) with i by lia. exact Hs.
  - replace (i + Z.of_nat (Datatypes.S c)) with ((i + 1) + Z.of_nat c) by lia.
    apply IH.
    + apply Hstep; [lia | exact Hs].
    + intros j t Hj. apply Hstep. lia.
Qed.

Lemma for_loop_ind {S : Type} (P : Z -> S -> Prop) (body : Z -> S -> S)
      (n : Z) (s : S) :
  0 <= n ->
  P 0 s ->
  (forall j t, 0 <= j < n -> P j t -> P (j + 1) (body j t)) ->
  P n (for_loop n body s).
Proof.
  intros Hn Hs Hstep. unfold for_loop.
  replace n with (0 + Z.of_nat (Z.to_nat n)) at 1 by lia.
  apply for_loop_from_ind; [exact Hs|].
  intros j t Hj. apply Hstep. lia.
Qed.

(** An invariant that does not mention the counter. *)
Lemma for_loop_inv {S : Type} (P : S -> Prop) (body : Z -> S -> S)
      (n : Z) (s : S) :
  P s ->
  (forall j t, 0 <= j < n -> P t -> P (body j t)) ->
  P (for_loop n body s).
Proof.
  intros Hs Hstep. unfold for_loop.
  assert (G : forall (count : nat) (i : Z) (t : S),
             0 <= i -> i + Z.of_nat count <= Z.max 0 n -> P t ->
             P (for_loop_from count i body t)).
  { induction count as [|c IH]; intros i t Hi Hc Ht; simpl; [exact Ht|].
    apply IH; [lia | lia |]. apply Hstep; [lia | exact Ht]. }
  apply G; [lia | lia | exact Hs].
Qed.

Lemma for_loop_nonpos {S : Type} (body : Z -> S -> S) (n : Z) (s : S) :
  n <= 0 -> for_loop n body s = s.
Proof.
  intros Hn. unfold for_loop.
  replace (Z.to_nat n) with 0%nat by lia. reflexivity.
Qed.

Lemma for_loop_from_snoc {S : Type} (body : Z -> S -> S) :
  forall (count : nat) (i : Z) (s : S),
    for_loop_from (Datatypes.S count) i body s
    = body (i + Z.of_nat count) (for_loop_from count i body s).
Proof.
  induction count as [|c IH]; intros i s.
  - simpl. replace (i + 0) with i by lia. reflexivity.
  - change (for_loop_from (Datatypes.S (Datatypes.S c)) i body s)
      with (for_loop_from (Datatypes.S c) (i + 1) body (body i s)).
    rewrite IH. simpl for_loop_from.
    replace (i + 1 + Z.of_nat c) with (i + Z.of_nat (Datatypes.S c)) by lia.
    reflexivity.
Qed.

Lemma for_loop_succ {S : Type} (body : Z -> S -> S) (n : Z) (s : S) :
  0 <= n -> for_loop (n + 1) body s = body n (for_loop n body s).
Proof.
  intros Hn. unfold for_loop.
  replace (Z.to_nat (n + 1)) with (Datatypes.S (Z.to_nat n)) by lia.
  rewrite for_loop_from_snoc. f_equal. lia.
Qed.

(** A loop over a pair whose body acts on each component by itself. *)
Lemma for_loop_from_pair {A B : Type} (f : Z -> A -> A) (g : Z -> B -> B)
      (h : Z -> A * B -> A * B) :
  (forall i a b, h i (a, b) = (f i a, g i b)) ->
  forall (count : nat) (i : Z) (a : A) (b : B),
    for_loop_from count i h (a, b)
    = (for_loop_from count i f a, for_loop_from count i g b).
Proof.
  intros Hh. induction count as [|c IH]; intros i a b; simpl; [reflexivity|].
  rewrite Hh. apply IH.
Qed.

(** ** Lists updated by index *)

Lemma length_upd {A : Type} (n : nat) (x : A) (l : list A) :
  length (upd n x l) = length l.
Proof.
  revert n. induction l as [|h t IH]; intros [|n]; simpl; auto.
Qed.

Lemma nth_upd_eq {A : Type} (n : nat) (x d : A) (l : list A) :
  (n < length l)%nat -> nth n (upd n x l) d = x.
Proof.
  revert n. induction l as [|h t IH]; intros [|n] H; simpl in *;
    try lia; auto. apply IH. lia.
Qed.

Lemma nth_upd_neq {A : Type} (n m : nat) (x d : A) (l : list A) :
  n <> m -> nth m (upd n x l) d = nth m l d.
Proof.
  revert n m. induction l as [|h t IH]; intros [|n] [|m] H; simpl;
    try reflexivity; try congruence. apply IH. congruence.
Qed.

Lemma upd_same {A : Type} (n : nat) (d : A) (l : list A) :
  upd n (nth n l d) l = l.
Proof.
  revert n. induction l as [|h t IH]; intros [|n]; simpl; try reflexivity.
  f_equal. apply IH.
Qed.

Lemma nth_ext_eq {A : Type} (d : A) (l1 l2 : list A) :
  length l1 = length l2 ->
  (forall n, (n < length l1)%nat -> nth n l1 d = nth n l2 d) ->
  l1 = l2.
Proof.
  revert l2. induction l1 as [|h t IH]; intros [|h2 t2] Hl Hn;
    simpl in *; try discriminate; [reflexivity|].
  f_equal.
  - apply (Hn 0%nat). lia.
  - apply IH; [lia|]. intros n Hlt. apply (Hn (Datatypes.S n)). lia.
Qed.

(** ** Vector registers and shift registers *)

Lemma v8fp_zero_wf : v8fp_wf v8fp_zero.
Proof. reflexivity. Qed.

Lemma vget_zero (i : Z) : vget v8fp_zero i = fzero.
Proof.
  unfold vget, v8fp_zero.
  destruct (Z.to_nat i) as [|[|[|[|[|[|[|[|n]]]]]]]]; simpl; try reflexivity.
  destruct n; reflexivity.
Qed.

Lemma vset_wf (v : v8fp_t) (i : Z) (x : float32) :
  v8fp_wf v -> v8fp_wf (vset v i x).
Proof. unfold v8fp_wf, vset. rewrite length_upd. auto. Qed.

Lemma vget_vset (v : v8fp_t) (i j : Z) (x : float32) :
  v8fp_wf v -> 0 <= i < VECTOR_SIZE -> 0 <= j ->
  vget (vset v i x) j = if j =? i then x else vget v j.
Proof.
  unfold v8fp_wf, vset, vget, VECTOR_SIZE. intros Hv Hi Hj.
  destruct (j =? i) eqn:E.
  - apply Z.eqb_eq in E. subst j. apply nth_upd_eq. lia.
  - apply Z.eqb_neq in E. apply nth_upd_neq. lia.
Qed.

Lemma v8fp_ext (v1 v2 : v8fp_t) :
  v8fp_wf v1 -> v8fp_wf v2 ->
  (forall i, 0 <= i < VECTOR_SIZE -> vget v1 i = vget v2 i) ->
  v1 = v2.
Proof.
  unfold v8fp_wf, vget, VECTOR_SIZE. intros H1 H2 H.
  apply (nth_ext_eq fzero); [congruence|].
  intros n Hn. specialize (H (Z.of_nat n)).
  rewrite Nat2Z.id in H. apply H. lia.
Qed.

Lemma shift_reg_wf_unit (reg : shift_reg_t) (u : Z) :
  shift_reg_wf reg -> v8fp_wf (nth (Z.to_nat u) reg v8fp_zero).
Proof.
  intros [Hl Hf].
  destruct (Nat.lt_ge_cases (Z.to_nat u) (length reg)) as [H|H].
  - rewrite Forall_forall in Hf. apply Hf. apply nth_In. exact H.
  - rewrite nth_overflow by exact H. apply v8fp_zero_wf.
Qed.

Lemma sr_set_wf (reg : shift_reg_t) (u l : Z) (x : float32) :
  shift_reg_wf reg -> shift_reg_wf (sr_set reg u l x).
Proof.
  intros Hwf. pose proof (shift_reg_wf_unit reg u Hwf) as Hu.
  destruct Hwf as [Hl Hf]. unfold sr_set. split.
  - rewrite length_upd. exact Hl.
  - rewrite Forall_forall in *. intros v Hv.
    destruct (In_nth _ _ v8fp_zero Hv) as [n [Hn Hnth]].
    rewrite length_upd in Hn.
    destruct (Nat.eq_dec (Z.to_nat u) n) as [E|E].
    + subst n. rewrite nth_upd_eq in Hnth by exact Hn. subst v.
      apply vset_wf. exact Hu.
    + rewrite nth_upd_neq in Hnth by exact E. subst v.
      apply Hf. apply nth_In. exact Hn.
Qed.

Lemma flat_lane_sr_set (reg : shift_reg_t) (k i : Z) (x : float32) :
  shift_reg_wf reg ->
  0 <= k < SHIFT_REG_SIZE -> 0 <= i < SHIFT_REG_SIZE ->
  flat_lane (sr_set reg (k / VECTOR_SIZE) (k mod VECTOR_SIZE) x) i
  = if i =? k then x else flat_lane reg i.
Proof.
  unfold SHIFT_REG_SIZE, VECTOR_SIZE. intros Hwf Hk Hi.
  pose proof (shift_reg_wf_unit reg (k / 8) Hwf) as Hu.
  destruct Hwf as [Hl Hf].
  unfold flat_lane, sr_get, sr_set, VECTOR_SIZE.
  assert (Hk8 : 0 <= k / 8 < 2) by (split; [apply Z.div_pos; lia | apply Z.div_lt_upper_bound; lia]).
  assert (Hi8 : 0 <= i / 8 < 2) by (split; [apply Z.div_pos; lia | apply Z.div_lt_upper_bound; lia]).
  pose proof (Z.mod_pos_bound k 8 ltac:(lia)) as Hkm.
  pose proof (Z.mod_pos_bound i 8 ltac:(lia)) as Him.
  pose proof (Z.div_mod k 8 ltac:(lia)) as Hkd.
  pose proof (Z.div_mod i 8 ltac:(lia)) as Hid.
  destruct (Z.eq_dec (i / 8) (k / 8)) as [E|E].
  - rewrite E. rewrite nth_upd_eq by lia.
    rewrite vget_vset by (unfold VECTOR_SIZE; auto; lia).
    destruct (i mod 8 =? k mod 8) eqn:E2.
    + apply Z.eqb_eq in E2.
      replace (i =? k) with true by (symmetry; apply Z.eqb_eq; lia).
      reflexivity.
    + apply Z.eqb_neq in E2.
      replace (i =? k) with false by (symmetry; apply Z.eqb_neq; lia).
      reflexivity.
  - rewrite nth_upd_neq by lia.
    replace (i =? k) with false
      by (symmetry; apply Z.eqb_neq; intro; subst; congruence).
    reflexivity.
Qed.

Lemma shift_reg_ext (r1 r2 : shift_reg_t) :
  shift_reg_wf r1 -> shift_reg_wf r2 ->
  (forall i, 0 <= i < SHIFT_REG_SIZE -> flat_lane r1 i = flat_lane r2 i) ->
  r1 = r2.
Proof.
  intros H1 H2 H.
  apply (nth_ext_eq v8fp_zero).
  - destruct H1, H2. congruence.
  - intros n Hn.
    assert (Hn2 : (n < 2)%nat) by (destruct H1; lia).
    pose proof (shift_reg_wf_unit r1 (Z.of_nat n) H1) as W1.
    pose proof (shift_reg_wf_unit r2 (Z.of_nat n) H2) as W2.
    rewrite Nat2Z.id in W1, W2.
    apply v8fp_ext; auto.
    intros i Hi. unfold VECTOR_SIZE in Hi.
    specialize (H (Z.of_nat n * 8 + i)).
    unfold flat_lane, sr_get, VECTOR_SIZE, SHIFT_REG_SIZE in H.
    replace ((Z.of_nat n * 8 + i) / 8) with (Z.of_nat n) in H
      by (apply Z.div_unique with i; lia).
    replace ((Z.of_nat n * 8 + i) mod 8) with i in H
      by (apply Z.mod_unique with (Z.of_nat n); lia).
    rewrite Nat2Z.id in H. apply H. lia.
Qed.

(** ** Shifting a shift register *)

Lemma shift_reg_lshift_body_wf (shamt sr : Z) (reg : shift_reg_t) :
  shift_reg_wf reg -> shift_reg_wf (shift_reg_lshift_body shamt sr reg).
Proof.
  intros H. unfold shift_reg_lshift_body.
  destruct (u32 (sr + shamt) <? SHIFT_REG_SIZE); apply sr_set_wf; exact H.
Qed.

Lemma shift_reg_simd_lshift_wf (reg : shift_reg_t) (shamt : Z) :
  shift_reg_wf reg -> shift_reg_wf (shift_reg_simd_lshift reg shamt).
Proof.
  intros H. unfold shift_reg_simd_lshift.
  apply (for_loop_inv shift_reg_wf); [exact H|].
  intros j t _ Ht. apply shift_reg_lshift_body_wf. exact Ht.
Qed.

(** The in-place loop computes the shift of the flat register: after the
    lanes below [k] are done they hold their final value and the others
    still hold the old one. *)
Lemma shift_reg_simd_lshift_lane (reg : shift_reg_t) (shamt : Z) :
  shift_reg_wf reg -> 0 <= shamt < UINT_MOD ->
  forall i, 0 <= i < SHIFT_REG_SIZE ->
    flat_lane (shift_reg_simd_lshift reg shamt) i = lshift_spec reg shamt i.
Proof.
  intros Hwf Hs.
  set (P := fun (k : Z) (r : shift_reg_t) =>
              shift_reg_wf r /\
              forall i, 0 <= i < SHIFT_REG_SIZE ->
                flat_lane r i
                = if i <? k then lshift_spec reg shamt i else flat_lane reg i).
  assert (HP : P SHIFT_REG_SIZE (shift_reg_simd_lshift reg shamt)).
  { unfold shift_reg_simd_lshift. apply for_loop_ind.
    - unfold SHIFT_REG_SIZE. lia.
    - split; [exact Hwf|]. intros i Hi.
      replace (i <? 0) with false by (symmetry; apply Z.ltb_ge; lia).
      reflexivity.
    - intros k r Hk [Hr Hlanes]. split.
      + apply shift_reg_lshift_body_wf. exact Hr.
      + intros i Hi. unfold shift_reg_lshift_body.
        fold (flat_lane r (u32 (k + shamt))).
        assert (Hval :
                  (if u32 (k + shamt) <? SHIFT_REG_SIZE
                   then flat_lane r (u32 (k + shamt)) else fzero)
                  = lshift_spec reg shamt k).
        { unfold lshift_spec, UINT_MOD, SHIFT_REG_SIZE in *.
          destruct (Z.lt_ge_cases (k + shamt) (2 ^ 32)) as [Hlt|Hge].
          - rewrite u32_small by (unfold UINT_MOD; lia).
            destruct (k + shamt <? 16) eqn:E; [|reflexivity].
            apply Z.ltb_lt in E. rewrite Hlanes by lia.
            replace (k + shamt <? k) with false
              by (symmetry; apply Z.ltb_ge; lia).
            reflexivity.
          - assert (Hu : u32 (k + shamt) = k + shamt - 2 ^ 32).
            { unfold u32, UINT_MOD. symmetry.
              apply Z.mod_unique with 1; lia. }
            rewrite Hu.
            replace (k + shamt - 2 ^ 32 <? 16) with true
              by (symmetry; apply Z.ltb_lt; lia).
            replace (k + shamt <? 16) with false
              by (symmetry; apply Z.ltb_ge; lia).
            rewrite Hlanes by lia.
            replace (k + shamt - 2 ^ 32 <? k) with true
              by (symmetry; apply Z.ltb_lt; lia).
            replace (k + shamt - 2 ^ 32 + shamt <? 16) with false
              by (symmetry; apply Z.ltb_ge; lia).
            reflexivity. }
        assert (Hset : forall x,
                   flat_lane (sr_set r (k / VECTOR_SIZE) (k mod VECTOR_SIZE) x) i
                   = if i <? k + 1
                     then (if i =? k then x else lshift_spec reg shamt i)
                     else flat_lane reg i).
        { intros x. rewrite flat_lane_sr_set by auto. rewrite Hlanes by auto.
          destruct (i =? k) eqn:E1; destruct (i <? k) eqn:E2;
            destruct (i <? k + 1) eqn:E3; try reflexivity;
            try apply Z.eqb_eq in E1; try apply Z.eqb_neq in E1;
            try apply Z.ltb_lt in E2; try apply Z.ltb_ge in E2;
            try apply Z.ltb_lt in E3; try apply Z.ltb_ge in E3; lia. }
        destruct (u32 (k + shamt) <? SHIFT_REG_SIZE) eqn:E;
          rewrite Hset; destruct (i <? k + 1); try reflexivity;
          destruct (i =? k) eqn:E1; try reflexivity;
          apply Z.eqb_eq in E1; subst i; exact Hval. }
  intros i Hi. destruct HP as [_ HP]. rewrite HP by exact Hi.
  replace (i <? SHIFT_REG_SIZE) with true
    by (symmetry; apply Z.ltb_lt; lia).
  reflexivity.
Qed.

Lemma shift_regs_simd_lshift_pair (reg0 reg1 : shift_reg_t) (shamt : Z) :
  shift_regs_simd_lshift reg0 reg1 shamt
  = (shift_reg_simd_lshift reg0 shamt, shift_reg_simd_lshift reg1 shamt).
Proof.
  unfold shift_regs_simd_lshift, shift_reg_simd_lshift, for_loop.
  apply for_loop_from_pair. intros i a b.
  unfold shift_regs_lshift_body, shift_reg_lshift_body.
  destruct (u32 (i + shamt) <? SHIFT_REG_SIZE); reflexivity.
Qed.

(** C8.  Seen as one flat array of [SHIFT_REG_SIZE] lanes spanning its
    vector units, a register shifted by [shamt] has in lane [i] the old
    value of lane [i + shamt] when that lane exists and zero otherwise;
    so shifting by 0 is the identity and shifting by [SHIFT_REG_SIZE] or
    more gives zero in every lane; [shift_regs_simd_lshift] does the same to
    each of its two registers. *)
Theorem shift_reg_simd_lshift_flat (reg reg' : shift_reg_t) (shamt : Z) :
  shift_reg_wf reg -> shift_reg_wf reg' -> 0 <= shamt < UINT_MOD ->
  (forall i, 0 <= i < SHIFT_REG_SIZE ->
     flat_lane (shift_reg_simd_lshift reg shamt) i
     = if i + shamt <? SHIFT_REG_SIZE then flat_lane reg (i + shamt)
       else fzero)
  /\ (shamt = 0 -> shift_reg_simd_lshift reg shamt = reg)
  /\ (SHIFT_REG_SIZE <= shamt ->
      forall i, 0 <= i < SHIFT_REG_SIZE ->
        flat_lane (shift_reg_simd_lshift reg shamt) i = fzero)
  /\ shift_regs_simd_lshift reg reg' shamt
     = (shift_reg_simd_lshift reg shamt, shift_reg_simd_lshift reg' shamt).
Proof.
  intros Hwf Hwf' Hs.
  pose proof (shift_reg_simd_lshift_lane reg shamt Hwf Hs) as Hlane.
  repeat split.
  - exact Hlane.
  - intros H0. apply shift_reg_ext.
    + apply shift_reg_simd_lshift_wf. exact Hwf.
    + exact Hwf.
    + intros i Hi. rewrite Hlane by exact Hi. unfold lshift_spec.
      subst shamt. replace (i + 0) with i by lia.
      replace (i <? SHIFT_REG_SIZE) with true
        by (symmetry; apply Z.ltb_lt; lia).
      reflexivity.
  - intros Hge i Hi. rewrite Hlane by exact Hi. unfold lshift_spec.
    replace (i + shamt <? SHIFT_REG_SIZE) with false
      by (symmetry; apply Z.ltb_ge; lia).
    reflexivity.
  - apply shift_regs_simd_lshift_pair.
Qed.

Lemma ramp_wf (base : Z) : shift_reg_wf (ramp base).
Proof. split; [reflexivity|]. repeat constructor. Qed.

Lemma shift_reg_simd_lshift_flat_witness :
  flat_lane (shift_reg_simd_lshift (ramp 0) 3) 2 = flat_lane (ramp 0) 5
  /\ flat_lane (shift_reg_simd_lshift (ramp 0) 3) 14 = fzero.
Proof.
  destruct (shift_reg_simd_lshift_flat (ramp 0) (ramp 100) 3)
    as [H _].
  - apply ramp_wf.
  - apply ramp_wf.
  - unfold UINT_MOD. lia.
  - split.
    + exact (H 2 ltac:(unfold SHIFT_REG_SIZE; lia)).
    + exact (H 14 ltac:(unfold SHIFT_REG_SIZE; lia)).
Defined.

(** ** Merging the partial sums *)

Lemma even_double (k : Z) : Z.even (2 * k) = true.
Proof. rewrite Z.even_mul. reflexivity. Qed.

Lemma even_double_succ (k : Z) : Z.even (2 * k + 1) = false.
Proof. rewrite Z.add_comm, Z.even_add_mul_2. reflexivity. Qed.

Lemma div2_double (k : Z) : 2 * k / 2 = k.
Proof. symmetry. apply Z.div_unique with 0; lia. Qed.

Lemma div2_double_succ (k : Z) : (2 * k + 1) / 2 = k.
Proof. symmetry. apply Z.div_unique with 1; lia. Qed.

(** Adding a float to a positive zero gives the same number back; only the
    sign of a negative zero is lost. *)
Lemma fadd_zero_l_same_value (x : float32) : same_value (fadd fzero x) x.
Proof. destruct x as [[|]| | |]; simpl; auto. Qed.

Lemma fadd_zero_l_exact (x : float32) :
  x <> S754_zero true -> fadd fzero x = x.
Proof.
  intros H. destruct x as [[|]| | |]; try reflexivity. congruence.
Qed.

Lemma merge_psums_double_tp_lanes (psums_0 psums_1 : v8fp_t) :
  forall j, 0 <= j < VECTOR_SIZE ->
    vget (merge_psums_simd_fxp psums_0 psums_1 true) j
    = fadd fzero (vget (if Z.even j then psums_0 else psums_1) (j / 2)).
Proof.
  set (P := fun (k : Z) (r : v8fp_t) =>
              v8fp_wf r /\
              forall j, 0 <= j < VECTOR_SIZE ->
                vget r j
                = if j <? 2 * k
                  then fadd fzero
                         (vget (if Z.even j then psums_0 else psums_1) (j / 2))
                  else fzero).
  assert (HP : P (VECTOR_SIZE / 2)
                 (merge_psums_simd_fxp psums_0 psums_1 true)).
  { unfold merge_psums_simd_fxp. apply for_loop_ind.
    - change (VECTOR_SIZE / 2) with 4. lia.
    - split; [apply v8fp_zero_wf|]. intros j Hj. rewrite vget_zero.
      destruct (j <? 2 * 0) eqn:E; [apply Z.ltb_lt in E; lia | reflexivity].
    - change (VECTOR_SIZE / 2) with 4. unfold VECTOR_SIZE.
      intros k r Hk [Hr Hl]. unfold merge_psums_double_tp. split.
      + apply vset_wf, vset_wf, Hr.
      + intros j Hj. unfold VECTOR_SIZE in Hj.
        rewrite (vget_vset _ (2 * k + 1) j)
          by (unfold VECTOR_SIZE; try apply vset_wf; auto; lia).
        rewrite (vget_vset _ (2 * k) (2 * k + 1))
          by (unfold VECTOR_SIZE; auto; lia).
        rewrite (vget_vset _ (2 * k) j) by (unfold VECTOR_SIZE; auto; lia).
        replace (2 * k + 1 =? 2 * k) with false
          by (symmetry; apply Z.eqb_neq; lia).
        rewrite (Hl (2 * k + 1)) by (unfold VECTOR_SIZE; lia).
        rewrite (Hl (2 * k)) by (unfold VECTOR_SIZE; lia).
        rewrite (Hl j) by (unfold VECTOR_SIZE; lia).
        replace (2 * k + 1 <? 2 * k) with false
          by (symmetry; apply Z.ltb_ge; lia).
        replace (2 * k <? 2 * k) with false
          by (symmetry; apply Z.ltb_ge; lia).
        destruct (j =? 2 * k + 1) eqn:E1.
        { apply Z.eqb_eq in E1. subst j.
          replace (2 * k + 1 <? 2 * (k + 1)) with true
            by (symmetry; apply Z.ltb_lt; lia).
          rewrite even_double_succ, div2_double_succ. reflexivity. }
        apply Z.eqb_neq in E1.
        destruct (j =? 2 * k) eqn:E2.
        { apply Z.eqb_eq in E2. subst j.
          replace (2 * k <? 2 * (k + 1)) with true
            by (symmetry; apply Z.ltb_lt; lia).
          rewrite even_double, div2_double. reflexivity. }
        apply Z.eqb_neq in E2.
        destruct (j <? 2 * k) eqn:E3.
        { replace (j <? 2 * (k + 1)) with true
            by (symmetry; apply Z.ltb_lt; apply Z.ltb_lt in E3; lia).
          reflexivity. }
        apply Z.ltb_ge in E3.
        replace (j <? 2 * (k + 1)) with false
          by (symmetry; apply Z.ltb_ge; lia).
        reflexivity. }
  intros j Hj. destruct HP as [_ HP]. rewrite HP by exact Hj.
  change (VECTOR_SIZE / 2) with 4. unfold VECTOR_SIZE in Hj.
  replace (j <? 2 * 4) with true by (symmetry; apply Z.ltb_lt; lia).
  reflexivity.
Qed.

Lemma merge_psums_single_tp_lanes (psums_0 psums_1 : v8fp_t) :
  forall j, 0 <= j < VECTOR_SIZE ->
    vget (merge_psums_simd_fxp psums_0 psums_1 false) j
    = fadd fzero (fadd (vget psums_0 j) (vget psums_1 j)).
Proof.
  set (P := fun (k : Z) (r : v8fp_t) =>
              v8fp_wf r /\
              forall j, 0 <= j < VECTOR_SIZE ->
                vget r j
                = if j <? k
                  then fadd fzero (fadd (vget psums_0 j) (vget psums_1 j))
                  else fzero).
  assert (HP : P VECTOR_SIZE (merge_psums_simd_fxp psums_0 psums_1 false)).
  { unfold merge_psums_simd_fxp. apply for_loop_ind.
    - unfold VECTOR_SIZE. lia.
    - split; [apply v8fp_zero_wf|]. intros j Hj. rewrite vget_zero.
      destruct (j <? 0) eqn:E; [apply Z.ltb_lt in E; lia | reflexivity].
    - intros k r Hk [Hr Hl]. unfold merge_psums_single_tp. split.
      + apply vset_wf, Hr.
      + intros j Hj. rewrite vget_vset by (auto; lia).
        rewrite (Hl k), (Hl j) by (auto; lia).
        replace (k <? k) with false by (symmetry; apply Z.ltb_ge; lia).
        destruct (j =? k) eqn:E1.
        { apply Z.eqb_eq in E1. subst j.
          replace (k <? k + 1) with true by (symmetry; apply Z.ltb_lt; lia).
          reflexivity. }
        apply Z.eqb_neq in E1.
        destruct (j <? k) eqn:E3.
        { replace (j <? k + 1) with true
            by (symmetry; apply Z.ltb_lt; apply Z.ltb_lt in E3; lia).
          reflexivity. }
        apply Z.ltb_ge in E3.
        replace (j <? k + 1) with false by (symmetry; apply Z.ltb_ge; lia).
        reflexivity. }
  intros j Hj. destruct HP as [_ HP]. rewrite HP by exact Hj.
  replace (j <? VECTOR_SIZE) with true by (symmetry; apply Z.ltb_lt; lia).
  reflexivity.
Qed.

Lemma merge_psums_simd_fxp_wf (psums_0 psums_1 : v8fp_t) (double_tp : bool) :
  v8fp_wf (merge_psums_simd_fxp psums_0 psums_1 double_tp).
Proof.
  unfold merge_psums_simd_fxp. destruct double_tp.
  - apply (for_loop_inv v8fp_wf); [apply v8fp_zero_wf|].
    intros j t _ Ht. unfold merge_psums_double_tp. apply vset_wf, vset_wf, Ht.
  - apply (for_loop_inv v8fp_wf); [apply v8fp_zero_wf|].
    intros j t _ Ht. unfold merge_psums_single_tp. apply vset_wf, Ht.
Qed.

(** C1.  [merge_psums_simd_fxp] is a function of its three arguments alone.
    In double-throughput mode lane [2i] of the result is [psums_0[i]] and
    lane [2i+1] is [psums_1[i]] for every [i] below [VECTOR_SIZE/2]; in
    single-throughput mode lane [i] is [psums_0[i] + psums_1[i]] for every
    [i] below [VECTOR_SIZE]; equal arguments give equal results.  Lanes are
    compared as numbers ([same_value]): the code adds each lane to a zeroed
    accumulator, which keeps every value and returns a negative zero as
    positive zero. *)
Theorem merge_psums_simd_fxp_pure (psums_0 psums_1 : v8fp_t) :
  (forall i, 0 <= i < VECTOR_SIZE / 2 ->
     same_value (vget (merge_psums_simd_fxp psums_0 psums_1 true) (2 * i))
                (vget psums_0 i)
     /\ same_value
          (vget (merge_psums_simd_fxp psums_0 psums_1 true) (2 * i + 1))
          (vget psums_1 i))
  /\ (forall i, 0 <= i < VECTOR_SIZE ->
        same_value (vget (merge_psums_simd_fxp psums_0 psums_1 false) i)
                   (fadd (vget psums_0 i) (vget psums_1 i)))
  /\ (forall psums_0' psums_1' double_tp double_tp',
        psums_0 = psums_0' -> psums_1 = psums_1' -> double_tp = double_tp' ->
        merge_psums_simd_fxp psums_0 psums_1 double_tp
        = merge_psums_simd_fxp psums_0' psums_1' double_tp').
Proof.
  split; [|split].
  - change (VECTOR_SIZE / 2) with 4. intros i Hi.
    rewrite !merge_psums_double_tp_lanes by (unfold VECTOR_SIZE; lia).
    rewrite even_double, even_double_succ, div2_double, div2_double_succ.
    split; apply fadd_zero_l_same_value.
  - intros i Hi. rewrite merge_psums_single_tp_lanes by exact Hi.
    apply fadd_zero_l_same_value.
  - intros p0' p1' tp tp' H0 H1 Htp. subst. reflexivity.
Qed.

Lemma merge_psums_simd_fxp_pure_witness :
  same_value
    (vget (merge_psums_simd_fxp (nth 0 (ramp 0) []) (nth 1 (ramp 0) []) true)
          (2 * 1))
    (vget (nth 0 (ramp 0) []) 1)
  /\ same_value
       (vget (merge_psums_simd_fxp (nth 0 (ramp 0) []) (nth 1 (ramp 0) [])
                                   false) 5)
       (fadd (vget (nth 0 (ramp 0) []) 5) (vget (nth 1 (ramp 0) []) 5)).
Proof.
  destruct (merge_psums_simd_fxp_pure (nth 0 (ramp 0) []) (nth 1 (ramp 0) []))
    as (Hd & Hs & _).
  split.
  - apply (Hd 1). change (VECTOR_SIZE / 2) with 4. lia.
  - apply (Hs 5). unfold VECTOR_SIZE. lia.
Defined.

(** ** The multiply-accumulate datapath *)

Lemma for_loop_from_ext {S : Type} (f g : Z -> S -> S) :
  (forall i s, f i s = g i s) ->
  forall (count : nat) (i : Z) (s : S),
    for_loop_from count i f s = for_loop_from count i g s.
Proof.
  intros H. induction count as [|c IH]; intros i s; simpl; [reflexivity|].
  rewrite H. apply IH.
Qed.

Lemma conv2d_dp_core_loop (w : v8fp_t) (p0 p1 : shift_reg_t)
      (a0 a1 : float32) :
  for_loop DATAPATH_WIDTH (conv2d_dp_core w p0 p1) (a0, a1)
  = (dot_product_acc w 0 p0 a0, dot_product_acc w DATAPATH_WIDTH p1 a1).
Proof.
  unfold dot_product_acc, for_loop.
  rewrite (for_loop_from_pair
             (fun j acc => fadd acc (fmul (vget w (j + 0)) (sr_get p0 0 j)))
             (fun j acc =>
                fadd acc (fmul (vget w (j + DATAPATH_WIDTH)) (sr_get p1 0 j)))).
  - reflexivity.
  - intros i a b. unfold conv2d_dp_core. rewrite Z.add_0_r. reflexivity.
Qed.

Lemma shifted_succ (n shamt : Z) (reg : shift_reg_t) :
  0 <= n ->
  shifted (n + 1) shamt reg = shift_reg_simd_lshift (shifted n shamt reg) shamt.
Proof.
  intros Hn. unfold shifted.
  exact (for_loop_succ (fun _ r => shift_reg_simd_lshift r shamt) n reg Hn).
Qed.

Lemma shifted_wf (n shamt : Z) (reg : shift_reg_t) :
  shift_reg_wf reg -> shift_reg_wf (shifted n shamt reg).
Proof.
  intros H. unfold shifted. apply (for_loop_inv shift_reg_wf); [exact H|].
  intros j t _ Ht. apply shift_reg_simd_lshift_wf. exact Ht.
Qed.

Lemma conv_macc_datapath_simd_fxp_inv (w : v8fp_t) (p0 p1 : shift_reg_t)
      (dp_shamt dp0_iters dp1_iters : Z) (psums_0 psums_1 : v8fp_t) :
  v8fp_wf psums_0 -> v8fp_wf psums_1 ->
  0 <= dp0_iters <= VECTOR_SIZE ->
  macc_inv w p0 p1 dp_shamt dp1_iters psums_0 psums_1 dp0_iters
           (conv_macc_datapath_simd_fxp w p0 p1 dp_shamt dp0_iters dp1_iters
                                        psums_0 psums_1).
Proof.
  intros W0 W1 Hdp. unfold conv_macc_datapath_simd_fxp.
  apply for_loop_ind; [lia | |].
  - unfold macc_inv, shifted. simpl. rewrite !for_loop_nonpos by lia.
    repeat split; auto; intros i Hi;
      replace (i <? 0) with false by (symmetry; apply Z.ltb_ge; lia);
      reflexivity.
  - intros n s Hn (H0 & H1 & V0 & V1 & L0 & L1).
    unfold conv2d_dp_outer. rewrite conv2d_dp_core_loop.
    rewrite shift_regs_simd_lshift_pair. unfold macc_inv. simpl.
    rewrite !shifted_succ by lia. rewrite H0, H1.
    repeat split; auto.
    + apply vset_wf. exact V0.
    + destruct (n <? dp1_iters); [apply vset_wf|]; exact V1.
    + intros i Hi. rewrite vget_vset by (auto; lia).
      rewrite (L0 n), (L0 i) by lia.
      replace (n <? n) with false by (symmetry; apply Z.ltb_ge; lia).
      destruct (i =? n) eqn:E.
      * apply Z.eqb_eq in E. subst i.
        replace (n <? n + 1) with true by (symmetry; apply Z.ltb_lt; lia).
        reflexivity.
      * apply Z.eqb_neq in E.
        replace (i <? n + 1) with (i <? n); [reflexivity|].
        destruct (i <? n) eqn:E1; symmetry;
          [apply Z.ltb_lt; apply Z.ltb_lt in E1
          |apply Z.ltb_ge; apply Z.ltb_ge in E1]; lia.
    + intros i Hi. destruct (n <? dp1_iters) eqn:Ed.
      * rewrite vget_vset by (auto; lia).
        rewrite (L1 n), (L1 i) by lia.
        replace (n <? n) with false by (symmetry; apply Z.ltb_ge; lia).
        simpl. destruct (i =? n) eqn:E.
        -- apply Z.eqb_eq in E. subst i.
           replace (n <? n + 1) with true by (symmetry; apply Z.ltb_lt; lia).
           rewrite Ed. reflexivity.
        -- apply Z.eqb_neq in E.
           replace (i <? n + 1) with (i <? n); [reflexivity|].
           destruct (i <? n) eqn:E1; symmetry;
             [apply Z.ltb_lt; apply Z.ltb_lt in E1
             |apply Z.ltb_ge; apply Z.ltb_ge in E1]; lia.
      * rewrite (L1 i) by lia. apply Z.ltb_ge in Ed.
        destruct (i <? n) eqn:E1.
        -- apply Z.ltb_lt in E1.
           replace (i <? n + 1) with true by (symmetry; apply Z.ltb_lt; lia).
           reflexivity.
        -- apply Z.ltb_ge in E1. simpl.
           destruct (i <? n + 1) eqn:E2; [|reflexivity].
           apply Z.ltb_lt in E2.
           replace (i <? dp1_iters) with false
             by (symmetry; apply Z.ltb_ge; lia).
           reflexivity.
Qed.

(** A register shifted [n] times by [shamt] is the register shifted by
    [n * shamt]. *)
Lemma shifted_lane (reg : shift_reg_t) (shamt n : Z) :
  shift_reg_wf reg -> 0 <= shamt < UINT_MOD -> 0 <= n ->
  forall i, 0 <= i < SHIFT_REG_SIZE ->
    flat_lane (shifted n shamt reg) i = lshift_spec reg (n * shamt) i.
Proof.
  intros Hwf Hs Hn.
  unfold shifted.
  apply (for_loop_ind
           (fun k r => shift_reg_wf r /\
                       forall i, 0 <= i < SHIFT_REG_SIZE ->
                         flat_lane r i = lshift_spec reg (k * shamt) i));
    [exact Hn | |].
  - split; [exact Hwf|]. intros i Hi. unfold lshift_spec. simpl.
    rewrite Z.add_0_r.
    replace (i <? SHIFT_REG_SIZE) with true by (symmetry; apply Z.ltb_lt; lia).
    reflexivity.
  - intros k r Hk [Hr Hl]. split; [apply shift_reg_simd_lshift_wf, Hr|].
    intros i Hi. rewrite shift_reg_simd_lshift_lane by auto.
    unfold lshift_spec at 1.
    destruct (i + shamt <? SHIFT_REG_SIZE) eqn:E.
    + apply Z.ltb_lt in E. rewrite Hl by lia. unfold lshift_spec.
      replace (i + shamt + k * shamt) with (i + (k + 1) * shamt) by lia.
      reflexivity.
    + apply Z.ltb_ge in E. unfold lshift_spec.
      replace (i + (k + 1) * shamt <? SHIFT_REG_SIZE) with false
        by (symmetry; apply Z.ltb_ge; nia).
      reflexivity.
Qed.

(** C2.  In a call with [dp1_iters <= dp0_iters] (and at most one iteration
    per lane of a partial-sum register), writing "the register at iteration
    [i]" for the shift register that the first [i] iterations of the loop
    leave: for each [i < dp0_iters], [psums_0[i]] is incremented by the dot
    product of lanes [0 .. DATAPATH_WIDTH) of the weights with lanes
    [0 .. DATAPATH_WIDTH) of the pipe-0 register at iteration [i]; for each
    [i < dp1_iters], [psums_1[i]] is incremented by the dot product of
    weights lanes [DATAPATH_WIDTH .. 2*DATAPATH_WIDTH) with lanes
    [0 .. DATAPATH_WIDTH) of the pipe-1 register at iteration [i]; every
    entry of [psums_1] from [dp1_iters] on is unchanged; and each iteration
    shifts both registers left by [dp_shamt] lanes: flat lane [j] of each
    register after iteration [n] is flat lane [j + dp_shamt] of that
    register before it, or zero when there is no such lane, so that after
    [n] iterations lane [j] holds the original lane [j + n * dp_shamt]. *)
Theorem conv_macc_datapath_simd_fxp_spec (weights_buffer : v8fp_t)
        (pipe0_shift_reg pipe1_shift_reg : shift_reg_t)
        (dp_shamt dp0_iters dp1_iters : Z) (psums_0 psums_1 : v8fp_t) :
  shift_reg_wf pipe0_shift_reg -> shift_reg_wf pipe1_shift_reg ->
  v8fp_wf psums_0 -> v8fp_wf psums_1 ->
  0 <= dp_shamt < UINT_MOD ->
  0 <= dp1_iters -> dp1_iters <= dp0_iters -> dp0_iters <= VECTOR_SIZE ->
  let at_iteration := fun n =>
    conv_macc_datapath_simd_fxp
      weights_buffer pipe0_shift_reg pipe1_shift_reg
      dp_shamt n dp1_iters psums_0 psums_1 in
  let m := at_iteration dp0_iters in
  (forall i, 0 <= i < dp0_iters ->
     vget (ms_psums_tmp_0 m) i
     = dot_product_acc weights_buffer 0 (ms_pipe0 (at_iteration i))
                       (vget psums_0 i))
  /\ (forall i, 0 <= i < dp1_iters ->
        vget (ms_psums_tmp_1 m) i
        = dot_product_acc weights_buffer DATAPATH_WIDTH
                          (ms_pipe1 (at_iteration i)) (vget psums_1 i))
  /\ (forall i, dp1_iters <= i -> vget (ms_psums_tmp_1 m) i = vget psums_1 i)
  /\ (forall n j, 0 <= n < dp0_iters -> 0 <= j < SHIFT_REG_SIZE ->
        flat_lane (ms_pipe0 (at_iteration (n + 1))) j
        = (if j + dp_shamt <? SHIFT_REG_SIZE
           then flat_lane (ms_pipe0 (at_iteration n)) (j + dp_shamt)
           else fzero)
        /\ flat_lane (ms_pipe1 (at_iteration (n + 1))) j
           = (if j + dp_shamt <? SHIFT_REG_SIZE
              then flat_lane (ms_pipe1 (at_iteration n)) (j + dp_shamt)
              else fzero))
  /\ (forall n j, 0 <= n <= dp0_iters -> 0 <= j < SHIFT_REG_SIZE ->
        flat_lane (ms_pipe0 (at_iteration n)) j
        = (if j + n * dp_shamt <? SHIFT_REG_SIZE
           then flat_lane pipe0_shift_reg (j + n * dp_shamt)
           else fzero)
        /\ flat_lane (ms_pipe1 (at_iteration n)) j
           = (if j + n * dp_shamt <? SHIFT_REG_SIZE
              then flat_lane pipe1_shift_reg (j + n * dp_shamt)
              else fzero)).
Proof.
  intros R0 R1 W0 W1 Hs Hd1 Hd Hd0 at_iteration m.
  assert (Hreg : forall n, 0 <= n <= dp0_iters ->
            ms_pipe0 (at_iteration n) = shifted n dp_shamt pipe0_shift_reg
            /\ ms_pipe1 (at_iteration n)
               = shifted n dp_shamt pipe1_shift_reg).
  { intros n Hn.
    destruct (conv_macc_datapath_simd_fxp_inv
                weights_buffer pipe0_shift_reg pipe1_shift_reg
                dp_shamt n dp1_iters psums_0 psums_1 W0 W1 ltac:(lia))
      as (H0 & H1 & _).
    split; assumption. }
  destruct (conv_macc_datapath_simd_fxp_inv
              weights_buffer pipe0_shift_reg pipe1_shift_reg
              dp_shamt dp0_iters dp1_iters psums_0 psums_1 W0 W1
              ltac:(lia))
    as (_ & _ & _ & _ & L0 & L1).
  fold (at_iteration dp0_iters) in L0, L1. fold m in L0, L1.
  split; [|split; [|split; [|split]]].
  - intros i Hi. rewrite L0 by lia.
    replace (i <? dp0_iters) with true by (symmetry; apply Z.ltb_lt; lia).
    rewrite (proj1 (Hreg i ltac:(lia))). reflexivity.
  - intros i Hi. rewrite L1 by lia.
    replace (i <? dp0_iters) with true by (symmetry; apply Z.ltb_lt; lia).
    replace (i <? dp1_iters) with true by (symmetry; apply Z.ltb_lt; lia).
    rewrite (proj2 (Hreg i ltac:(lia))). reflexivity.
  - intros i Hi. rewrite L1 by lia.
    replace (i <? dp1_iters) with false by (symmetry; apply Z.ltb_ge; lia).
    rewrite andb_false_r. reflexivity.
  - intros n j Hn Hj.
    destruct (Hreg n ltac:(lia)) as [E0 E1].
    destruct (Hreg (n + 1) ltac:(lia)) as [F0 F1].
    rewrite E0, E1, F0, F1, !shifted_succ by lia.
    rewrite !shift_reg_simd_lshift_lane by (auto using shifted_wf).
    split; reflexivity.
  - intros n j Hn Hj.
    destruct (Hreg n Hn) as [E0 E1]. rewrite E0, E1.
    rewrite !shifted_lane by (auto; lia).
    split; reflexivity.
Qed.

Lemma conv_macc_datapath_simd_fxp_spec_witness :
  let at_iteration := fun n =>
    conv_macc_datapath_simd_fxp
      (nth 0 (ramp 0) []) (ramp 0) (ramp 100) 1 n 1 v8fp_zero v8fp_zero in
  let m := at_iteration 2 in
  vget (ms_psums_tmp_0 m) 1
  = dot_product_acc (nth 0 (ramp 0) []) 0 (ms_pipe0 (at_iteration 1)) fzero
  /\ vget (ms_psums_tmp_1 m) 1 = fzero
  /\ flat_lane (ms_pipe1 m) 3 = flat_lane (ramp 100) 5
  /\ flat_lane (ms_pipe0 m) 15 = fzero.
Proof.
  destruct (conv_macc_datapath_simd_fxp_spec
              (nth 0 (ramp 0) []) (ramp 0) (ramp 100) 1 2 1
              v8fp_zero v8fp_zero (ramp_wf 0) (ramp_wf 100)
              v8fp_zero_wf v8fp_zero_wf
              ltac:(unfold UINT_MOD; lia)
              ltac:(lia) ltac:(lia) ltac:(unfold VECTOR_SIZE; lia))
    as (H0 & _ & H1 & _ & Hl).
  split; [|split; [|split]].
  - apply (H0 1). lia.
  - apply (H1 1). lia.
  - exact (proj2 (Hl 2 3 ltac:(lia) ltac:(unfold SHIFT_REG_SIZE; lia))).
  - exact (proj1 (Hl 2 15 ltac:(lia) ltac:(unfold SHIFT_REG_SIZE; lia))).
Defined.

(** ** The convolution kernel: schedule, loads and commits *)

Module ConvFacts.
Import Conv.

Lemma max_psums_per_act_range (L : layer_t) :
  0 <= max_psums_per_act L <= 2 * DATAPATH_WIDTH
  /\ (double_tp L = true -> max_psums_per_act L <= DATAPATH_WIDTH).
Proof.
  unfold max_psums_per_act, DATAPATH_WIDTH.
  change (Z.quot 4 2) with 2.
  destruct (k_stride L =? 1), (k_stride L =? 2), (k_stride L =? 4),
    (double_tp L); (split; [lia | intros E; try lia; discriminate E]).
Qed.

(** The schedule of a column group: each pipe gets at most
    [max_psums_per_act] iterations, pipe 1 no more than pipe 0, and the
    pixels produced are at most eight and at most those remaining. *)
Lemma schedule_range (L : layer_t) (out_col : Z) :
  0 <= out_col <= result_width L -> result_width L < 2 ^ 31 ->
  forall dp0 dp1 total,
    schedule L out_col = (dp0, dp1, total) ->
    0 <= dp1 /\ dp1 <= dp0 /\ dp0 <= VECTOR_SIZE
    /\ 0 <= total <= VECTOR_SIZE
    /\ total <= result_width L - out_col
    /\ dp0 <= max_psums_per_act L.
Proof.
  intros Hoc Hrw dp0 dp1 total Hs.
  destruct (max_psums_per_act_range L) as [Hm Hmd].
  unfold schedule in Hs.
  rewrite u32_small in Hs by (unfold UINT_MOD; lia).
  unfold VECTOR_SIZE, DATAPATH_WIDTH in *.
  set (rem := result_width L - out_col) in *.
  assert (Hrem : 0 <= rem) by (unfold rem; lia).
  pose proof (Z.div_mod rem 2 ltac:(lia)) as Hdm.
  pose proof (Z.mod_pos_bound rem 2 ltac:(lia)) as Hmb.
  assert (Hdiv : 0 <= rem / 2) by (apply Z.div_pos; lia).
  destruct (double_tp L) eqn:Edt.
  - specialize (Hmd eq_refl).
    rewrite !min_spec in Hs.
    rewrite u32_small in Hs by (unfold UINT_MOD; lia).
    injection Hs as <- <- <-. lia.
  - rewrite !min_spec in Hs. injection Hs as <- <- <-. lia.
Qed.

(** With no supported stride nothing is scheduled. *)
Lemma schedule_unsupported (L : layer_t) (out_col : Z) :
  max_psums_per_act L = 0 -> schedule L out_col = (0, 0, 0).
Proof.
  intros Hm. unfold schedule. rewrite Hm.
  pose proof (u32_range (result_width L - out_col)) as Hr.
  set (rem := u32 (result_width L - out_col)) in *.
  unfold UINT_MOD in Hr.
  pose proof (Z.div_mod rem 2 ltac:(lia)) as Hdm.
  pose proof (Z.mod_pos_bound rem 2 ltac:(lia)) as Hmb.
  assert (Hdiv : 0 <= rem / 2) by (apply Z.div_pos; lia).
  assert (Hmin : forall x, 0 <= x -> min 0 x = 0)
    by (intros x Hx; rewrite min_spec; lia).
  destruct (double_tp L); rewrite !Hmin by lia; reflexivity.
Qed.

(** *** One column group *)

Lemma conv2d_col_unfold (L : layer_t) (img kern chan in_row out_row in_col : Z)
      (st : conv_state) (out_col : Z) :
  forall dp0 dp1 total,
    schedule L out_col = (dp0, dp1, total) ->
    let k := for_loop (end_kern L)
                      (conv2d_kern_row L (cs_a st) (cs_kernels st)
                                       img kern chan in_row in_col dp0 dp1)
                      (cs_loads st, v8fp_zero, v8fp_zero) in
    let oc := s32 (u32 (out_col + total)) in
    conv2d_col L img kern chan in_row out_row in_col (st, out_col)
    = (mk_conv_state
         (cs_a st) (cs_kernels st)
         (for_loop total
                   (conv2d_commit L chan out_row out_col
                      (merge_psums_simd_fxp (snd (fst k)) (snd k)
                                            (double_tp L)))
                   (cs_result st))
         (fst (fst k)),
       if oc >=? result_width L then 0 else oc).
Proof.
  intros dp0 dp1 total Hs k oc. unfold conv2d_col. rewrite Hs.
  fold k. destruct k as [[loads p0] p1]. reflexivity.
Qed.

(** The commit loop writes lanes [0 .. total_outpx) of one vector of the
    result and nothing else. *)
Lemma conv2d_commit_frame (L : layer_t) (chan out_row out_col total : Z)
      (final_psums : v8fp_t) (result : fbuf) (idx : Z) :
  let base := VEC_ARRAY_3D (result_height L) (result_padded_width L)
                           chan out_row (Z.quot out_col VECTOR_SIZE)
              * VECTOR_SIZE in
  ~ (base <= idx < base + total) ->
  for_loop total (conv2d_commit L chan out_row out_col final_psums) result idx
  = result idx.
Proof.
  intros base Hidx.
  apply (for_loop_inv (fun r : fbuf => r idx = result idx)); [reflexivity|].
  intros j r Hj Hr. unfold conv2d_commit, buf_set. fold base.
  destruct (idx =? base + j) eqn:E; [|exact Hr].
  apply Z.eqb_eq in E. lia.
Qed.

(** The loads of one kernel-row step are those of [load_activations]. *)
Lemma conv2d_kern_row_loads (L : layer_t) (a kernels : fbuf)
      (img kern chan in_row in_col dp0 dp1 kern_row : Z)
      (s : list (Z * Z) * v8fp_t * v8fp_t) :
  fst (fst (conv2d_kern_row L a kernels img kern chan in_row in_col dp0 dp1
                            kern_row s))
  = snd (load_activations L a img chan (in_row + kern_row) in_col)
    ++ fst (fst s).
Proof.
  unfold conv2d_kern_row. destruct s as [[loads p0] p1].
  destruct (load_activations L a img chan (in_row + kern_row) in_col)
    as [[r0 r1] nl].
  reflexivity.
Qed.

Lemma load_activations_cols (L : layer_t) (a : fbuf) (img chan row in_col : Z) :
  forall ld, In ld (snd (load_activations L a img chan row in_col)) ->
    snd ld = in_col
    \/ (snd ld = in_col + 1
        /\ (has_boundary_case L && (in_col =? end_col_marker L)) = false).
Proof.
  intros ld. unfold load_activations.
  destruct (has_boundary_case L && (in_col =? end_col_marker L)); simpl.
  - intros [<-|[]]. left. reflexivity.
  - intros [<-|[<-|[]]]; [right | left]; auto.
Qed.

Lemma frac_ceil_range (a : Z) :
  0 <= a < 2 ^ 31 ->
  0 <= FRAC_CEIL a VECTOR_SIZE < 2 ^ 29
  /\ (1 <= a -> 1 <= FRAC_CEIL a VECTOR_SIZE)
  /\ forall P, a <= P -> P mod VECTOR_SIZE = 0 ->
       FRAC_CEIL a VECTOR_SIZE * VECTOR_SIZE <= P.
Proof.
  intros Ha. unfold FRAC_CEIL, VECTOR_SIZE.
  pose proof (Z.quot_rem' a 8) as Hqr.
  pose proof (Z.rem_bound_pos a 8 ltac:(lia) ltac:(lia)) as Hrb.
  assert (Hq : 0 <= Z.quot a 8) by (apply Z.quot_pos; lia).
  repeat split.
  - destruct (Z.rem a 8 =? 0); lia.
  - destruct (Z.rem a 8 =? 0); lia.
  - intros H1. destruct (Z.rem a 8 =? 0) eqn:E; [apply Z.eqb_eq in E|]; lia.
  - intros P HP Hmod. pose proof (Z.div_mod P 8 ltac:(lia)) as HPd.
    destruct (Z.rem a 8 =? 0) eqn:E;
      [apply Z.eqb_eq in E | apply Z.eqb_neq in E]; lia.
Qed.

Lemma input_fetches_per_row_eq (L : layer_t) :
  0 <= a_width L < 2 ^ 31 ->
  input_fetches_per_row L = FRAC_CEIL (a_width L) VECTOR_SIZE.
Proof.
  intros Hw. destruct (frac_ceil_range _ Hw) as (HF & _).
  unfold input_fetches_per_row. apply u32_small. unfold UINT_MOD. lia.
Qed.

Lemma end_col_marker_eq (L : layer_t) :
  0 <= a_width L < 2 ^ 31 ->
  end_col_marker L = input_fetches_per_row L - 1.
Proof.
  intros Hw. destruct (frac_ceil_range _ Hw) as (HF & _).
  unfold end_col_marker. rewrite input_fetches_per_row_eq by exact Hw.
  set (F := FRAC_CEIL (a_width L) VECTOR_SIZE) in *.
  destruct (Z.eq_dec F 0) as [->|E]; [reflexivity|].
  rewrite u32_small by (unfold UINT_MOD; lia). apply s32_small. lia.
Qed.

Lemma end_col_eq (L : layer_t) :
  0 <= a_width L < 2 ^ 31 ->
  1 <= input_fetches_per_row L ->
  end_col L = if has_boundary_case L then input_fetches_per_row L
              else input_fetches_per_row L - 1.
Proof.
  intros Hw H1. destruct (frac_ceil_range _ Hw) as (HF & _).
  unfold end_col. rewrite input_fetches_per_row_eq in * by exact Hw.
  set (F := FRAC_CEIL (a_width L) VECTOR_SIZE) in *.
  rewrite (u32_small (F - 1)) by (unfold UINT_MOD; lia).
  destruct (has_boundary_case L); apply s32_small; lia.
Qed.

Lemma end_col_no_fetch (L : layer_t) :
  input_fetches_per_row L = 0 -> end_col L <= 0.
Proof.
  intros H0. unfold end_col. rewrite H0.
  destruct (has_boundary_case L); vm_compute; congruence.
Qed.

(** The columns loaded while the column loop is inside its range are column
    vectors of the input row. *)
Lemma in_col_load_range (L : layer_t) (in_col c : Z) :
  0 <= a_width L < 2 ^ 31 ->
  0 <= in_col < end_col L ->
  c = in_col
  \/ (c = in_col + 1
      /\ (has_boundary_case L && (in_col =? end_col_marker L)) = false) ->
  0 <= c < input_fetches_per_row L.
Proof.
  intros Hw Hin Hc.
  destruct (frac_ceil_range _ Hw) as (HF & _).
  pose proof (input_fetches_per_row_eq L Hw) as HFe.
  destruct (Z.eq_dec (input_fetches_per_row L) 0) as [E0|E0].
  - pose proof (end_col_no_fetch L E0). lia.
  - assert (H1 : 1 <= input_fetches_per_row L) by lia.
    rewrite (end_col_eq L Hw H1) in Hin.
    rewrite (end_col_marker_eq L Hw) in Hc.
    destruct (has_boundary_case L) eqn:Eb; simpl in Hc.
    + destruct Hc as [->|[-> Hm]]; [lia|].
      apply Z.eqb_neq in Hm. lia.
    + destruct Hc as [->|[-> _]]; lia.
Qed.

(** *** The frame of one column group *)

Lemma padded_width_vectors (PW : Z) :
  0 <= PW -> PW mod VECTOR_SIZE = 0 ->
  PW = Z.quot PW VECTOR_SIZE * VECTOR_SIZE.
Proof.
  unfold VECTOR_SIZE. intros H0 Hm.
  rewrite Z.quot_div_nonneg by lia.
  pose proof (Z.div_mod PW 8 ltac:(lia)). lia.
Qed.

Lemma conv2d_col_frame (L : layer_t) (img kern chan in_row out_row in_col : Z)
      (st : conv_state) (out_col : Z) :
  output_wf L ->
  0 <= out_row < result_height L ->
  out_col_ok L out_col ->
  let s' := conv2d_col L img kern chan in_row out_row in_col (st, out_col) in
  cs_a (fst s') = cs_a st
  /\ cs_kernels (fst s') = cs_kernels st
  /\ (forall idx, ~ in_plane L chan idx ->
        cs_result (fst s') idx = cs_result st idx)
  /\ out_col_ok L (snd s').
Proof.
  intros [Hst Hrw Hpad Hal Hrows] Hor Hoc s'.
  destruct (schedule L out_col) as [[dp0 dp1] total] eqn:Hs.
  assert (Hoc' : 0 <= out_col <= result_width L)
    by (destruct Hoc; lia).
  destruct (schedule_range L out_col Hoc' ltac:(lia) dp0 dp1 total Hs)
    as (_ & _ & _ & Ht & Htr & _).
  unfold s'. rewrite (conv2d_col_unfold _ _ _ _ _ _ _ _ _ dp0 dp1 total Hs).
  cbv zeta. simpl fst. simpl snd. simpl cs_a. simpl cs_kernels.
  simpl cs_result.
  split; [reflexivity|]. split; [reflexivity|]. split.
  - intros idx Hidx. apply conv2d_commit_frame.
    intros Hin. apply Hidx. clear Hidx.
    assert (Hlt : out_col < result_width L) by lia.
    unfold in_plane. unfold result_padded_width in *.
    set (PW := result_width L + result_pad L) in *.
    assert (HPW : PW = Z.quot PW VECTOR_SIZE * VECTOR_SIZE)
      by (apply padded_width_vectors; [unfold PW; lia | exact Hal]).
    unfold VEC_ARRAY_3D in Hin.
    set (V := Z.quot PW VECTOR_SIZE) in *.
    set (H := result_height L) in *.
    assert (Hq : 0 <= Z.quot out_col VECTOR_SIZE < V).
    { unfold VECTOR_SIZE in *. rewrite Z.quot_div_nonneg by lia.
      split; [apply Z.div_pos; lia|].
      apply Z.div_lt_upper_bound; [lia|]. unfold PW in HPW. lia. }
    set (ocv := Z.quot out_col VECTOR_SIZE) in *.
    unfold VECTOR_SIZE in *.
    set (X := chan * H) in *.
    assert (B1 : X * V <= (X + out_row) * V + ocv) by nia.
    assert (B2 : (X + out_row) * V + ocv + 1 <= (X + H) * V) by nia.
    replace ((chan + 1) * H) with (X + H) by (unfold X; lia).
    rewrite HPW. nia.
  - unfold out_col_ok.
    rewrite u32_small by (unfold UINT_MOD; lia).
    rewrite s32_small by lia.
    destruct (out_col + total >=? result_width L) eqn:E; [right; reflexivity|].
    left. rewrite Z.geb_leb in E. apply Z.leb_gt in E. lia.
Qed.

Lemma conv2d_row_body_frame (L : layer_t) (img kern chan in_row out_row : Z)
      (st : conv_state) :
  output_wf L ->
  0 <= out_row < result_height L ->
  let st' := conv2d_row_body L img kern chan in_row out_row st in
  cs_a st' = cs_a st
  /\ cs_kernels st' = cs_kernels st
  /\ (forall idx, ~ in_plane L chan idx -> cs_result st' idx = cs_result st idx).
Proof.
  intros Hwf Hor st'. unfold st', conv2d_row_body.
  set (P := fun s : conv_state * Z =>
              (cs_a (fst s) = cs_a st
               /\ cs_kernels (fst s) = cs_kernels st
               /\ (forall idx, ~ in_plane L chan idx ->
                     cs_result (fst s) idx = cs_result st idx))
              /\ out_col_ok L (snd s)).
  assert (HP : P (for_loop (end_col L)
                           (conv2d_col L img kern chan in_row out_row)
                           (st, 0))).
  { apply for_loop_inv.
    - unfold P. simpl. repeat split; auto. right. reflexivity.
    - intros j [t oc] _ [(Ha & Hk & Hr) Hoc]. simpl in Ha, Hk, Hr, Hoc.
      destruct (conv2d_col_frame L img kern chan in_row out_row j t oc
                                 Hwf Hor Hoc) as (Ha' & Hk' & Hr' & Hoc').
      unfold P. repeat split; try congruence; auto.
      intros idx Hidx. rewrite Hr' by exact Hidx. apply Hr. exact Hidx. }
  exact (proj1 HP).
Qed.

(** *** The row loop *)

(** The row loop of a layer with a positive stride ends, and keeps an
    invariant that each of its iterations keeps. *)
Lemma conv2d_row_inv (L : layer_t) (img kern chan : Z)
      (P : Z -> Z -> conv_state -> Prop) :
  0 < k_stride L ->
  (forall in_row out_row st,
     P in_row out_row st -> in_row < end_row L ->
     P (in_row + row_stride L) (out_row + 1)
       (conv2d_row_body L img kern chan in_row out_row st)) ->
  forall (fuel : nat) (in_row out_row : Z) (st : conv_state),
    (Z.to_nat (end_row L - in_row) <= fuel)%nat ->
    P in_row out_row st ->
    exists in_row' out_row' st',
      conv2d_row fuel L img kern chan in_row out_row st = Some st'
      /\ P in_row' out_row' st'.
Proof.
  intros Hst Hstep.
  induction fuel as [|f IH]; intros in_row out_row st Hf HP; simpl.
  - destruct (in_row <? end_row L) eqn:E.
    + apply Z.ltb_lt in E. lia.
    + eauto.
  - destruct (in_row <? end_row L) eqn:E.
    + apply Z.ltb_lt in E. apply IH.
      * unfold row_stride. lia.
      * apply Hstep; assumption.
    + eauto.
Qed.

(** Whatever the fuel, a result of the row loop satisfies an invariant of
    its iterations. *)
Lemma conv2d_row_partial (L : layer_t) (img kern chan : Z)
      (P : Z -> Z -> conv_state -> Prop) :
  (forall in_row out_row st,
     P in_row out_row st -> in_row < end_row L ->
     P (in_row + row_stride L) (out_row + 1)
       (conv2d_row_body L img kern chan in_row out_row st)) ->
  forall (fuel : nat) (in_row out_row : Z) (st st' : conv_state),
    P in_row out_row st ->
    conv2d_row fuel L img kern chan in_row out_row st = Some st' ->
    exists in_row' out_row', P in_row' out_row' st'.
Proof.
  intros Hstep.
  induction fuel as [|f IH]; intros in_row out_row st st' HP Hrun;
    simpl in Hrun; destruct (in_row <? end_row L) eqn:E.
  - discriminate.
  - injection Hrun as <-. eauto.
  - apply Z.ltb_lt in E. eapply IH; [|exact Hrun]. apply Hstep; assumption.
  - injection Hrun as <-. eauto.
Qed.

(** *** The call as a whole *)

Lemma conv2d_row_returns (L : layer_t) (img kern chan : Z) (fuel : nat)
      (st : conv_state) :
  0 < k_stride L -> (row_fuel L <= fuel)%nat ->
  exists st', conv2d_row fuel L img kern chan 0 0 st = Some st'.
Proof.
  intros Hst Hf.
  destruct (conv2d_row_inv L img kern chan (fun _ _ _ => True) Hst
                           ltac:(auto) fuel 0 0 st) as (_ & _ & st' & H & _).
  - unfold row_fuel in Hf. rewrite Z.sub_0_r. exact Hf.
  - exact I.
  - exists st'. exact H.
Qed.

(** C10.  A call on a descriptor whose output side is well formed returns,
    leaves the activation buffer and the kernels buffer as they were, and
    changes the result buffer inside channel plane [chan] only: every
    element of another plane has the value it had before the call. *)
Theorem convolution2d_frame (fuel : nat) (a kernels : fbuf) (img kern chan : Z)
        (curr_layer : layer_t) (result : fbuf) :
  output_wf curr_layer -> (row_fuel curr_layer <= fuel)%nat ->
  exists st',
    convolution2d_smiv_1kernel_1channel_simd_fxp
      fuel a kernels img kern chan curr_layer result = Some st'
    /\ cs_a st' = a
    /\ cs_kernels st' = kernels
    /\ forall idx, ~ in_plane curr_layer chan idx ->
         cs_result st' idx = result idx.
Proof.
  intros Hwf Hf. unfold convolution2d_smiv_1kernel_1channel_simd_fxp.
  set (P := fun (in_row out_row : Z) (st : conv_state) =>
              in_row = out_row * k_stride curr_layer /\ 0 <= out_row
              /\ cs_a st = a /\ cs_kernels st = kernels
              /\ forall idx, ~ in_plane curr_layer chan idx ->
                   cs_result st idx = result idx).
  destruct (conv2d_row_inv curr_layer img kern chan P (owf_stride _ Hwf))
    with (fuel := fuel) (in_row := 0) (out_row := 0)
         (st := mk_conv_state a kernels result [])
    as (ir & or & st' & Hrun & HP).
  - intros in_row out_row st (Hir & Hor & Ha & Hk & Hr) Hlt.
    assert (Hrow : 0 <= out_row < result_height curr_layer).
    { split; [exact Hor|]. pose proof (owf_rows _ Hwf) as Hrows.
      pose proof (owf_stride _ Hwf) as Hst. nia. }
    destruct (conv2d_row_body_frame curr_layer img kern chan in_row out_row st
                                    Hwf Hrow) as (Ha' & Hk' & Hr').
    unfold P, row_stride. repeat split; try lia; try congruence.
    intros idx Hidx. rewrite Hr' by exact Hidx. apply Hr. exact Hidx.
  - unfold row_fuel in Hf. rewrite Z.sub_0_r. exact Hf.
  - unfold P. simpl. repeat split; auto; lia.
  - exists st'. destruct HP as (_ & _ & Ha & Hk & Hr). auto.
Qed.

(** *** Unsupported strides *)

Lemma conv2d_col_unsupported (L : layer_t) (img kern chan in_row out_row : Z)
      (in_col : Z) (s : conv_state * Z) :
  max_psums_per_act L = 0 ->
  cs_result (fst (conv2d_col L img kern chan in_row out_row in_col s))
  = cs_result (fst s).
Proof.
  intros Hm. destruct s as [st oc].
  rewrite (conv2d_col_unfold _ _ _ _ _ _ _ _ _ 0 0 0
                             (schedule_unsupported L oc Hm)).
  simpl. apply for_loop_nonpos. lia.
Qed.

Lemma conv2d_row_body_unsupported (L : layer_t) (img kern chan : Z)
      (in_row out_row : Z) (st : conv_state) :
  max_psums_per_act L = 0 ->
  cs_result (conv2d_row_body L img kern chan in_row out_row st) = cs_result st.
Proof.
  intros Hm. unfold conv2d_row_body.
  apply (for_loop_inv
           (fun s : conv_state * Z => cs_result (fst s) = cs_result st));
    [reflexivity|].
  intros j t _ Ht. rewrite conv2d_col_unsupported by exact Hm. exact Ht.
Qed.

(** C3, as the code has it.  [max_psums_per_act] follows the table: stride 1
    gives [DATAPATH_WIDTH] in double-throughput mode and
    [2 * DATAPATH_WIDTH] in single-throughput mode, stride 2 gives
    [DATAPATH_WIDTH / 2] and [DATAPATH_WIDTH], stride 4 gives
    [DATAPATH_WIDTH / 2]; for any other stride it is 0, no assertion is
    made, and a call with such a stride that is positive returns with the
    result buffer as it was. *)
Theorem max_psums_per_act_table (curr_layer : layer_t) :
  (k_stride curr_layer = 1 ->
   max_psums_per_act curr_layer
   = if double_tp curr_layer then DATAPATH_WIDTH else 2 * DATAPATH_WIDTH)
  /\ (k_stride curr_layer = 2 ->
      max_psums_per_act curr_layer
      = if double_tp curr_layer then DATAPATH_WIDTH / 2 else DATAPATH_WIDTH)
  /\ (k_stride curr_layer = 4 ->
      max_psums_per_act curr_layer = DATAPATH_WIDTH / 2)
  /\ (k_stride curr_layer <> 1 -> k_stride curr_layer <> 2 ->
      k_stride curr_layer <> 4 ->
      max_psums_per_act curr_layer = 0
      /\ (0 < k_stride curr_layer ->
          forall (fuel : nat) (a kernels : fbuf) (img kern chan : Z)
                 (result : fbuf),
            (row_fuel curr_layer <= fuel)%nat ->
            exists st',
              convolution2d_smiv_1kernel_1channel_simd_fxp
                fuel a kernels img kern chan curr_layer result = Some st'
              /\ cs_result st' = result)).
Proof.
  unfold max_psums_per_act. repeat split.
  - intros ->. simpl. destruct (double_tp curr_layer); reflexivity.
  - intros ->. simpl. destruct (double_tp curr_layer); reflexivity.
  - intros ->. reflexivity.
  - apply Z.eqb_neq in H, H0, H1. rewrite H, H0, H1. reflexivity.
  - intros Hst fuel a kernels img kern chan result Hf.
    assert (Hm : max_psums_per_act curr_layer = 0).
    { unfold max_psums_per_act.
      apply Z.eqb_neq in H, H0, H1. rewrite H, H0, H1. reflexivity. }
    unfold convolution2d_smiv_1kernel_1channel_simd_fxp.
    destruct (conv2d_row_inv curr_layer img kern chan
                (fun _ _ st => cs_result st = result) Hst)
      with (fuel := fuel) (in_row := 0) (out_row := 0)
           (st := mk_conv_state a kernels result [])
      as (ir & or & st' & Hrun & HP).
    + intros in_row out_row st Hr _.
      rewrite conv2d_row_body_unsupported by exact Hm. exact Hr.
    + unfold row_fuel in Hf. rewrite Z.sub_0_r. exact Hf.
    + reflexivity.
    + exists st'. auto.
Qed.

(** *** Activation loads *)

Lemma conv2d_col_loads (L : layer_t) (img kern chan in_row out_row in_col : Z)
      (s : conv_state * Z) :
  0 <= a_width L < 2 ^ 31 ->
  0 <= in_col < end_col L ->
  Forall (load_fetched L) (cs_loads (fst s)) ->
  Forall (load_fetched L)
         (cs_loads (fst (conv2d_col L img kern chan in_row out_row in_col s))).
Proof.
  intros Hw Hin Hl. destruct s as [st oc].
  destruct (schedule L oc) as [[dp0 dp1] total] eqn:Hs.
  rewrite (conv2d_col_unfold _ _ _ _ _ _ _ _ _ dp0 dp1 total Hs).
  simpl fst. simpl cs_loads.
  apply (for_loop_inv
           (fun k : list (Z * Z) * v8fp_t * v8fp_t =>
              Forall (load_fetched L) (fst (fst k)))); [exact Hl|].
  intros j t _ Ht. rewrite conv2d_kern_row_loads.
  apply Forall_app. split; [|exact Ht].
  apply Forall_forall. intros ld Hld.
  apply load_activations_cols in Hld.
  unfold load_fetched. eapply in_col_load_range; eauto.
Qed.

Lemma conv2d_row_body_loads (L : layer_t) (img kern chan in_row out_row : Z)
      (st : conv_state) :
  0 <= a_width L < 2 ^ 31 ->
  Forall (load_fetched L) (cs_loads st) ->
  Forall (load_fetched L)
         (cs_loads (conv2d_row_body L img kern chan in_row out_row st)).
Proof.
  intros Hw Hl. unfold conv2d_row_body.
  apply (for_loop_inv
           (fun s : conv_state * Z =>
              Forall (load_fetched L) (cs_loads (fst s)))); [exact Hl|].
  intros j t Hj Ht. apply conv2d_col_loads; assumption.
Qed.

(** C4.  The boundary case is a function of the layer descriptor alone,
    [result_width * k_stride > (input_fetches_per_row - 1) * VECTOR_SIZE];
    when it is set and [in_col] is [input_fetches_per_row - 1] the load at
    position 1 (column vector [in_col + 1]) is not made and unit 1 of both
    shift registers stays zero; and every activation load that a call
    makes reads a column vector inside the padded input row.  A call with
    a positive stride returns. *)
Theorem boundary_case_loads (curr_layer : layer_t) (a kernels : fbuf)
        (img kern chan : Z) (result : fbuf) :
  input_wf curr_layer ->
  (1 <= a_width curr_layer ->
   0 <= result_width curr_layer * k_stride curr_layer < UINT_MOD ->
   has_boundary_case curr_layer
   = (result_width curr_layer * k_stride curr_layer
      >? (input_fetches_per_row curr_layer - 1) * VECTOR_SIZE))
  /\ (forall row in_col,
        has_boundary_case curr_layer = true ->
        in_col = input_fetches_per_row curr_layer - 1 ->
        let '(pipe0, pipe1, loads) :=
          load_activations curr_layer a img chan row in_col in
        loads = [(row, in_col)]
        /\ nth 1 pipe0 v8fp_zero = v8fp_zero
        /\ nth 1 pipe1 v8fp_zero = v8fp_zero)
  /\ (forall fuel st',
        convolution2d_smiv_1kernel_1channel_simd_fxp
          fuel a kernels img kern chan curr_layer result = Some st' ->
        Forall (load_in_row curr_layer) (cs_loads st'))
  /\ (0 < k_stride curr_layer ->
      forall fuel, (row_fuel curr_layer <= fuel)%nat ->
        exists st',
          convolution2d_smiv_1kernel_1channel_simd_fxp
            fuel a kernels img kern chan curr_layer result = Some st').
Proof.
  intros [Hw Hpad Hal].
  destruct (frac_ceil_range _ Hw) as (HF & HF1 & HFP).
  pose proof (input_fetches_per_row_eq _ Hw) as HFe.
  split; [|split; [|split]].
  - intros H1 Hrs. unfold has_boundary_case, last_input_pixel_start_col.
    rewrite HFe. specialize (HF1 H1).
    set (F := FRAC_CEIL (a_width curr_layer) VECTOR_SIZE) in *.
    unfold VECTOR_SIZE, UINT_MOD in *.
    rewrite (u32_small (F - 1)) by (unfold UINT_MOD; lia).
    rewrite (u32_small ((F - 1) * 8)) by (unfold UINT_MOD; lia).
    rewrite u32_small by (unfold UINT_MOD; lia).
    reflexivity.
  - intros row in_col Hb Hin. unfold load_activations.
    rewrite Hb, end_col_marker_eq by exact Hw.
    replace (in_col =? input_fetches_per_row curr_layer - 1) with true
      by (symmetry; apply Z.eqb_eq; exact Hin).
    simpl. auto.
  - intros fuel st' Hrun.
    unfold convolution2d_smiv_1kernel_1channel_simd_fxp in Hrun.
    destruct (conv2d_row_partial curr_layer img kern chan
                (fun _ _ st => Forall (load_fetched curr_layer) (cs_loads st)))
      with (fuel := fuel) (in_row := 0) (out_row := 0)
           (st := mk_conv_state a kernels result []) (st' := st')
      as (_ & _ & HP).
    + intros in_row out_row st Hl _. apply conv2d_row_body_loads; assumption.
    + constructor.
    + exact Hrun.
    + eapply Forall_impl; [|exact HP].
      intros ld [H0 H1]. unfold load_in_row. split; [exact H0|].
      rewrite HFe in H1.
      specialize (HFP (a_padded_width curr_layer)
                      ltac:(unfold a_padded_width; lia) Hal).
      unfold VECTOR_SIZE in *. lia.
  - intros Hst fuel Hf.
    apply conv2d_row_returns; assumption.
Qed.

(** *** Concrete calls *)

Lemma stride1_layer_output_wf : output_wf stride1_layer.
Proof. constructor; vm_compute; intuition congruence. Qed.

Lemma stride1_layer_input_wf : input_wf stride1_layer.
Proof. constructor; vm_compute; intuition congruence. Qed.

Lemma convolution2d_frame_witness :
  exists st',
    convolution2d_smiv_1kernel_1channel_simd_fxp
      4 ones_buf ones_buf 0 0 0 stride1_layer zero_buf = Some st'
    /\ cs_a st' = ones_buf
    /\ cs_kernels st' = ones_buf
    /\ forall idx, ~ in_plane stride1_layer 0 idx ->
         cs_result st' idx = zero_buf idx.
Proof.
  apply (convolution2d_frame 4 ones_buf ones_buf 0 0 0 stride1_layer zero_buf).
  - exact stride1_layer_output_wf.
  - vm_compute. lia.
Defined.

Lemma max_psums_per_act_table_witness :
  max_psums_per_act stride3_layer = 0
  /\ exists st',
       convolution2d_smiv_1kernel_1channel_simd_fxp
         1 zero_buf ones_buf 0 0 0 stride3_layer ones_buf = Some st'
       /\ cs_result st' = ones_buf.
Proof.
  destruct (max_psums_per_act_table stride3_layer) as (_ & _ & _ & H).
  destruct H as [H0 H1]; try (vm_compute; congruence).
  split; [exact H0|].
  apply H1.
  - vm_compute. reflexivity.
  - vm_compute. lia.
Defined.

Lemma boundary_case_loads_witness :
  has_boundary_case stride1_layer = true
  /\ exists st',
       convolution2d_smiv_1kernel_1channel_simd_fxp
         4 ones_buf ones_buf 0 0 0 stride1_layer zero_buf = Some st'
       /\ Forall (load_in_row stride1_layer) (cs_loads st').
Proof.
  destruct (boundary_case_loads stride1_layer ones_buf ones_buf 0 0 0 zero_buf
                                stride1_layer_input_wf)
    as (_ & _ & Hl & Hr).
  split; [reflexivity|].
  destruct (Hr ltac:(vm_compute; reflexivity) 4%nat ltac:(vm_compute; lia))
    as [st' Hst].
  exists st'. split; [exact Hst|]. exact (Hl _ _ Hst).
Defined.

(** C3 as stated fails: a call with stride 3 does not fail, it returns. *)
Lemma unsupported_stride_returns :
  ~ (forall (curr_layer : layer_t) (fuel : nat) (a kernels : fbuf)
            (img kern chan : Z) (result : fbuf),
       k_stride curr_layer <> 1 -> k_stride curr_layer <> 2 ->
       k_stride curr_layer <> 4 ->
       convolution2d_smiv_1kernel_1channel_simd_fxp
         fuel a kernels img kern chan curr_layer result = None).
Proof.
  intros H.
  specialize (H stride3_layer 1%nat zero_buf ones_buf 0 0 0 ones_buf).
  vm_compute in H.
  assert (H' : forall A (x : A), Some x <> None) by (intros; discriminate).
  eapply H'. apply H; intros E; discriminate E.
Qed.

(** C5 at a failing input: stride 2, a 3x3 kernel of ones, a 3x17 input of
    zeros and a result buffer that holds ones before the call.  The call
    returns; of the 8 pixels of the output row the first four are zero and
    the last four still hold what the buffer held: the second group of four
    pixels was committed over the first. *)
Theorem zero_input_stride2_partial :
  option_map (fun st' => map (cs_result st') [0; 1; 2; 3; 4; 5; 6; 7])
             (convolution2d_smiv_1kernel_1channel_simd_fxp
                1 zero_buf ones_buf 0 0 0 stride2_layer ones_buf)
  = Some [fzero; fzero; fzero; fzero; f_one; f_one; f_one; f_one].
Proof. vm_compute. reflexivity. Qed.

End ConvFacts.

(** ** Layer dispatch and the forward pass *)

Section LayersFacts.
Variable world : Type.
Variable copy_zeropad : ptr -> layer_t -> Z -> ptr -> world -> world.
Variable grab_matrix_dma : ptr -> Z -> list layer_t -> world -> world.
Variable grab_input_activations_dma :
  ptr -> Z -> list layer_t -> world -> world.
Variable store_output_activations_dma :
  ptr -> Z -> list layer_t -> world -> world.
Variable convolution2d_smiv : ptr -> ptr -> layer_t -> ptr -> world -> world.

Let hw := Smiv.convolution_layer_hw
            world grab_matrix_dma grab_input_activations_dma
            store_output_activations_dma convolution2d_smiv.
Let conv := Smiv.convolution_layer
              world copy_zeropad grab_matrix_dma grab_input_activations_dma
              store_output_activations_dma convolution2d_smiv.

(** C6.  With padding greater than 0, [convolution_layer] first has the
    zero-padded copy of the activations written into the result buffer,
    then invokes the kernel with the result buffer as its activations and
    the activations buffer as its result, and returns the activations
    buffer; with padding 0 it invokes the kernel from the activations
    buffer into the result buffer and returns the result buffer.  The
    kernel reads its first buffer and writes its last: it hands them so
    to [convolution2d_smiv]. *)
Theorem convolution_layer_buffers (activations weights : ptr)
        (layers : list layer_t) (lnum : Z) (result : ptr) (w : world) :
  let curr_layer := layer_at layers lnum in
  (0 < c_padding curr_layer ->
   conv activations weights layers lnum result w
   = (hw result weights layers lnum activations
         (copy_zeropad activations curr_layer
                       (Z.quot (field_size curr_layer - 1) 2) result w),
      activations))
  /\ (c_padding curr_layer = 0 ->
      conv activations weights layers lnum result w
      = (hw activations weights layers lnum result w, result))
  /\ (forall src dst w0,
        hw src weights layers lnum dst w0
        = store_output_activations_dma dst lnum layers
            (convolution2d_smiv src weights curr_layer dst
               (grab_input_activations_dma src lnum layers
                  (grab_matrix_dma weights lnum layers w0)))).
Proof.
  intros curr_layer. unfold conv, hw, Smiv.convolution_layer.
  fold curr_layer. repeat split.
  - intros Hp.
    replace (c_padding curr_layer >? 0) with true
      by (symmetry; apply Z.gtb_lt; lia).
    reflexivity.
  - intros Hp. rewrite Hp. reflexivity.
Qed.
End LayersFacts.

Lemma convolution_layer_buffers_witness :
  Smiv.convolution_layer
    log_world log_copy_zeropad log_grab_matrix_dma
    log_grab_input_activations_dma log_store_output_activations_dma
    log_convolution2d_smiv 100 200 [plain_layer; padded_layer] 1 300 []
  = ([EvStoreOutput 100; EvConv2d 300 200 100; EvGrabInput 300;
      EvGrabMatrix 200; EvZeroPad 100 300 1], 100).
Proof.
  destruct (convolution_layer_buffers
              log_world log_copy_zeropad log_grab_matrix_dma
              log_grab_input_activations_dma log_store_output_activations_dma
              log_convolution2d_smiv 100 200 [plain_layer; padded_layer] 1 300
              []) as (Hpad & _ & _).
  rewrite Hpad; [reflexivity|]. vm_compute. reflexivity.
Defined.

Section ForwardFacts.
Variable world : Type.
Variable run_layer_skip_activation_func :
  ptr -> ptr -> list layer_t -> Z -> ptr -> ptr -> world -> world * ptr.
Variable dmaStore : ptr -> world -> world.

(** The buffer into which the newest layer output was written, as the
    state of the machine has it. *)
Variable written : world -> ptr.

(** The assumption of the claim: a call of [run_layer] returns the buffer
    into which it wrote the output of the layer, one of the two buffers
    it was handed. *)
Hypothesis run_layer_returns_written :
  forall activations weights layers layer_num result sigmoid_table w,
    let r := run_layer_skip_activation_func
               activations weights layers layer_num result sigmoid_table w in
    snd r = written (fst r) /\ (snd r = activations \/ snd r = result).




End ForwardFacts.



(** ** The graph scheduler *)

Lemma before_rev {A : Type} (u v : A) (l : list A) :
  before v u l -> before u v (rev l).
Proof.
  intros (l1 & l2 & l3 & ->).
  exists (rev l3), (rev l2), (rev l1).
  rewrite rev_app_distr. simpl. rewrite rev_app_distr. simpl.
  rewrite <- !app_assoc. reflexivity.
Qed.

Section RunFacts.
Variables Vertex Operator Tensor world : Type.
Variable topological_sort :
  Scheduler.Graph Vertex Operator -> option (list Vertex).
Variable run : Operator -> world -> world.
Variable getOutput : Operator -> Z -> world -> Tensor.

Let runNetwork :=
  Scheduler.runNetwork Vertex Operator Tensor world
                       topological_sort run getOutput.
Let run_vertex :=
  Scheduler.run_vertex Vertex Operator Tensor world run getOutput.

Lemma front_inserter_rev (written acc : list Vertex) :
  fold_left (fun vertices v => v :: vertices) written acc
  = rev written ++ acc.
Proof.
  revert acc. induction written as [|x t IH]; intros acc; simpl.
  - reflexivity.
  - rewrite IH, <- app_assoc. reflexivity.
Qed.

(** The loop over [vertices] runs the operators of the list in order. *)
Lemma run_vertices (graph : Scheduler.Graph Vertex Operator)
      (vertices : list Vertex) (s : Scheduler.run_state Vertex Tensor world) :
  let s' := fold_left (run_vertex graph) vertices s in
  Scheduler.rs_ran s' = Scheduler.rs_ran s ++ vertices
  /\ Scheduler.rs_world s'
     = fold_left (fun w v => run (Scheduler.g_vertex_op graph v) w)
                 vertices (Scheduler.rs_world s)
  /\ Scheduler.rs_output s'
     = match rev vertices with
       | [] => Scheduler.rs_output s
       | v :: _ =>
           Some (getOutput (Scheduler.g_vertex_op graph v) 0
                           (Scheduler.rs_world s'))
       end.
Proof.
  revert s. induction vertices as [|x t IH]; intros s; simpl.
  - rewrite app_nil_r. auto.
  - destruct (IH (run_vertex graph s x)) as (Hr & Hw & Ho).
    split; [|split].
    + rewrite Hr. simpl. rewrite <- app_assoc. reflexivity.
    + rewrite Hw. reflexivity.
    + rewrite Ho. destruct (rev t) as [|y r] eqn:E; simpl; [|reflexivity].
      assert (Et : t = []) by (destruct t; [reflexivity|];
        apply (f_equal (@length Vertex)) in E; rewrite length_rev in E;
        discriminate).
      subst t. reflexivity.
Qed.

(** C9.  When [topological_sort] writes a reverse topological order of
    the graph (what the library promises for an acyclic graph),
    [runNetwork] runs the operator of every vertex exactly once: the
    vertices run are those of the graph, none twice, and the machine is
    left as by the calls of [run] in that order; an operator runs after
    every operator that it has an edge from; and the tensor returned is
    output 0 of the operator run last. *)
Theorem runNetwork_order (graph : Scheduler.Graph Vertex Operator)
        (w : world) (written : list Vertex) :
  topological_sort graph = Some written ->
  reverse_topological graph written ->
  exists s,
    runNetwork graph w = Some s
    /\ NoDup (Scheduler.rs_ran s)
    /\ (forall v, In v (Scheduler.rs_ran s)
                  <-> In v (Scheduler.g_vertices graph))
    /\ Scheduler.rs_world s
       = fold_left (fun w v => run (Scheduler.g_vertex_op graph v) w)
                   (Scheduler.rs_ran s) w
    /\ (forall u v, In (u, v) (Scheduler.g_edges graph) ->
          before u v (Scheduler.rs_ran s))
    /\ (forall v rest, rev (Scheduler.rs_ran s) = v :: rest ->
          Scheduler.rs_output s
          = Some (getOutput (Scheduler.g_vertex_op graph v) 0
                            (Scheduler.rs_world s))).
Proof.
  intros Hsort (Hnd & Hin & Hedges).
  unfold runNetwork, Scheduler.runNetwork. rewrite Hsort.
  eexists. split; [reflexivity|].
  unfold Scheduler.front_inserter. rewrite front_inserter_rev, app_nil_r.
  destruct (run_vertices graph (rev written)
                         (Scheduler.mk_run_state w None []))
    as (Hr & Hw & Ho).
  fold run_vertex. simpl in Hr, Hw, Ho.
  rewrite Hr. repeat split.
  - apply NoDup_rev. exact Hnd.
  - intros H. apply Hin. apply in_rev. exact H.
  - intros H. apply in_rev. rewrite rev_involutive. apply Hin. exact H.
  - exact Hw.
  - intros u v He. apply before_rev. apply Hedges. exact He.
  - intros v rest Hlast. rewrite Ho, Hlast. reflexivity.
Qed.
End RunFacts.

Lemma diamond_sorted :
  dfs_topological_sort diamond = Some [3; 1; 2; 0]%nat.
Proof. reflexivity. Qed.

Lemma diamond_reverse_topological :
  reverse_topological diamond [3; 1; 2; 0]%nat.
Proof.
  split; [|split].
  - repeat constructor; simpl; intuition discriminate.
  - intros v. simpl. intuition.
  - intros u v H. simpl in H.
    destruct H as [H|[H|[H|[H|[]]]]]; injection H as <- <-.
    + exists [3%nat], [2%nat], []. reflexivity.
    + exists [3; 1]%nat, [], []. reflexivity.
    + exists [], [], [2; 0]%nat. reflexivity.
    + exists [], [1%nat], [0%nat]. reflexivity.
Qed.

Lemma runNetwork_order_witness :
  exists s,
    Scheduler.runNetwork nat nat (nat * list nat) (list nat)
      dfs_topological_sort (fun op w => w ++ [op]) (fun op _ w => (op, w))
      diamond [] = Some s
    /\ NoDup (Scheduler.rs_ran s)
    /\ before 1%nat 3%nat (Scheduler.rs_ran s).
Proof.
  destruct (runNetwork_order
              nat nat (nat * list nat) (list nat)
              dfs_topological_sort (fun op w => w ++ [op])
              (fun op _ w => (op, w)) diamond [] [3; 1; 2; 0]%nat
              diamond_sorted diamond_reverse_topological)
    as (s & Hrun & Hnd & _ & _ & Hb & _).
  exists s. split; [exact Hrun|]. split; [exact Hnd|].
  apply Hb. simpl. auto.
Defined.

(** * Further properties *)

(** ** Shifts compose *)

(** X1.  Shifting a register by [a] and then by [b] is shifting it by
    [a + b]: lane [i] ends with the old value of lane [i + a + b], or zero
    when there is no such lane.  The sum is not reduced modulo 2^32. *)
Theorem shift_reg_simd_lshift_compose (reg : shift_reg_t) (a b : Z) :
  shift_reg_wf reg -> 0 <= a < UINT_MOD -> 0 <= b < UINT_MOD ->
  forall i, 0 <= i < SHIFT_REG_SIZE ->
    flat_lane (shift_reg_simd_lshift (shift_reg_simd_lshift reg a) b) i
    = lshift_spec reg (a + b) i.
Proof.
  intros Hwf Ha Hb i Hi.
  rewrite shift_reg_simd_lshift_lane
    by (auto using shift_reg_simd_lshift_wf).
  unfold lshift_spec at 1.
  destruct (i + b <? SHIFT_REG_SIZE) eqn:E.
  - apply Z.ltb_lt in E. rewrite shift_reg_simd_lshift_lane by (auto; lia).
    unfold lshift_spec. replace (i + b + a) with (i + (a + b)) by lia.
    reflexivity.
  - apply Z.ltb_ge in E. unfold lshift_spec.
    replace (i + (a + b) <? SHIFT_REG_SIZE) with false
      by (symmetry; apply Z.ltb_ge; lia).
    reflexivity.
Qed.

Lemma shift_reg_simd_lshift_compose_witness :
  flat_lane (shift_reg_simd_lshift (shift_reg_simd_lshift (ramp 0) 2) 3) 4
  = flat_lane (ramp 0) 9.
Proof.
  apply (shift_reg_simd_lshift_compose (ramp 0) 2 3 (ramp_wf 0)).
  - unfold UINT_MOD. lia.
  - unfold UINT_MOD. lia.
  - unfold SHIFT_REG_SIZE. lia.
Defined.

Lemma dot_product_acc_window (w : v8fp_t) (off : Z) (reg : shift_reg_t)
      (shamt n : Z) (acc : float32) :
  shift_reg_wf reg -> 0 <= shamt < UINT_MOD -> 0 <= n ->
  dot_product_acc w off (shifted n shamt reg) acc
  = window_acc w off reg (n * shamt) acc.
Proof.
  intros Hwf Hs Hn. unfold dot_product_acc, window_acc.
  pose proof (shifted_lane reg shamt n Hwf Hs Hn) as Hl.
  assert (G : forall (count : nat) (i : Z) (a : float32),
             0 <= i -> i + Z.of_nat count <= DATAPATH_WIDTH ->
             for_loop_from count i
               (fun j acc0 =>
                  fadd acc0 (fmul (vget w (j + off))
                                  (sr_get (shifted n shamt reg) 0 j))) a
             = for_loop_from count i
                 (fun j acc0 =>
                    fadd acc0 (fmul (vget w (j + off))
                                    (lshift_spec reg (n * shamt) j))) a).
  { induction count as [|c IH]; intros i a Hi Hc; simpl; [reflexivity|].
    unfold DATAPATH_WIDTH in Hc.
    rewrite <- (Hl i) by (unfold SHIFT_REG_SIZE; lia).
    unfold flat_lane, VECTOR_SIZE.
    rewrite (Z.div_small i 8), (Z.mod_small i 8) by lia.
    apply IH; unfold DATAPATH_WIDTH; lia. }
  unfold for_loop. apply G; [lia|]. unfold DATAPATH_WIDTH. simpl. lia.
Qed.

(** X2.  The datapath slides a window over the flat shift registers:
    [psums_0[i]], for [i < dp0_iters], is incremented by the products of
    weights lanes [0 .. 4) with the original pipe-0 lanes
    [i * dp_shamt .. i * dp_shamt + 4), and [psums_1[i]], for [i] below both
    [dp0_iters] and [dp1_iters], by the products of weights lanes
    [4 .. 8) with the original pipe-1 lanes of the same window; a lane past
    the end of a register counts as zero.  Whatever [dp1_iters] is, no entry
    at or past [dp0_iters] of either partial-sum register is changed. *)
Theorem conv_macc_datapath_simd_fxp_window (weights_buffer : v8fp_t)
        (pipe0_shift_reg pipe1_shift_reg : shift_reg_t)
        (dp_shamt dp0_iters dp1_iters : Z) (psums_0 psums_1 : v8fp_t) :
  shift_reg_wf pipe0_shift_reg -> shift_reg_wf pipe1_shift_reg ->
  v8fp_wf psums_0 -> v8fp_wf psums_1 ->
  0 <= dp_shamt < UINT_MOD -> 0 <= dp0_iters <= VECTOR_SIZE ->
  let m := conv_macc_datapath_simd_fxp
             weights_buffer pipe0_shift_reg pipe1_shift_reg
             dp_shamt dp0_iters dp1_iters psums_0 psums_1 in
  (forall i, 0 <= i < dp0_iters ->
     vget (ms_psums_tmp_0 m) i
     = window_acc weights_buffer 0 pipe0_shift_reg (i * dp_shamt)
                  (vget psums_0 i))
  /\ (forall i, 0 <= i < dp0_iters -> i < dp1_iters ->
        vget (ms_psums_tmp_1 m) i
        = window_acc weights_buffer DATAPATH_WIDTH pipe1_shift_reg
                     (i * dp_shamt) (vget psums_1 i))
  /\ (forall i, dp0_iters <= i ->
        vget (ms_psums_tmp_0 m) i = vget psums_0 i
        /\ vget (ms_psums_tmp_1 m) i = vget psums_1 i).
Proof.
  intros R0 R1 W0 W1 Hs Hd m.
  destruct (conv_macc_datapath_simd_fxp_inv
              weights_buffer pipe0_shift_reg pipe1_shift_reg
              dp_shamt dp0_iters dp1_iters psums_0 psums_1 W0 W1 Hd)
    as (_ & _ & _ & _ & L0 & L1).
  fold m in L0, L1. repeat split.
  - intros i Hi. rewrite L0 by lia.
    replace (i <? dp0_iters) with true by (symmetry; apply Z.ltb_lt; lia).
    apply dot_product_acc_window; auto; lia.
  - intros i Hi Hi1. rewrite L1 by lia.
    replace (i <? dp0_iters) with true by (symmetry; apply Z.ltb_lt; lia).
    replace (i <? dp1_iters) with true by (symmetry; apply Z.ltb_lt; lia).
    apply dot_product_acc_window; auto; lia.
  - rewrite L0 by lia.
    replace (i <? dp0_iters) with false by (symmetry; apply Z.ltb_ge; lia).
    reflexivity.
  - rewrite L1 by lia.
    replace (i <? dp0_iters) with false by (symmetry; apply Z.ltb_ge; lia).
    reflexivity.
Qed.

Lemma conv_macc_datapath_simd_fxp_window_witness :
  let m := conv_macc_datapath_simd_fxp
             (nth 0 (ramp 0) []) (ramp 0) (ramp 100) 2 3 5
             v8fp_zero v8fp_zero in
  vget (ms_psums_tmp_0 m) 2
  = window_acc (nth 0 (ramp 0) []) 0 (ramp 0) (2 * 2) fzero
  /\ vget (ms_psums_tmp_1 m) 4 = fzero.
Proof.
  destruct (conv_macc_datapath_simd_fxp_window
              (nth 0 (ramp 0) []) (ramp 0) (ramp 100) 2 3 5
              v8fp_zero v8fp_zero (ramp_wf 0) (ramp_wf 100)
              v8fp_zero_wf v8fp_zero_wf
              ltac:(unfold UINT_MOD; lia) ltac:(unfold VECTOR_SIZE; lia))
    as (H0 & _ & H2).
  split.
  - apply (H0 2). lia.
  - apply (H2 4). lia.
Defined.

(** ** The kernel: schedule, weights, termination, commits *)

Module ConvMore.
Import Conv ConvFacts.

(** X3.  The schedule of a column group.  With [remaining] output pixels
    left in the row, single-throughput mode gives both pipes
    [min(max_psums_per_act, remaining)] iterations and produces as many
    pixels; double-throughput mode splits the pixels between the pipes,
    pipe 0 getting the odd one, and produces
    [min(2 * max_psums_per_act, remaining)] pixels. *)
Theorem schedule_split (curr_layer : layer_t) (out_col : Z) :
  0 <= out_col <= result_width curr_layer ->
  result_width curr_layer < 2 ^ 31 ->
  let remaining := result_width curr_layer - out_col in
  let m := max_psums_per_act curr_layer in
  let '(dp0_iters, dp1_iters, total_outpx) := schedule curr_layer out_col in
  if double_tp curr_layer
  then dp1_iters <= dp0_iters <= dp1_iters + 1
       /\ total_outpx = dp0_iters + dp1_iters
       /\ total_outpx = Z.min (2 * m) remaining
  else dp0_iters = Z.min m remaining
       /\ dp1_iters = dp0_iters
       /\ total_outpx = dp0_iters.
Proof.
  intros Hoc Hrw remaining m.
  destruct (max_psums_per_act_range curr_layer) as [Hm Hmd].
  fold m in Hm, Hmd. unfold DATAPATH_WIDTH in *.
  unfold schedule. fold m.
  rewrite u32_small by (unfold UINT_MOD; lia). fold remaining.
  assert (Hrem : 0 <= remaining) by (unfold remaining; lia).
  pose proof (Z.div_mod remaining 2 ltac:(lia)) as Hdm.
  pose proof (Z.mod_pos_bound remaining 2 ltac:(lia)) as Hmb.
  destruct (double_tp curr_layer).
  - specialize (Hmd eq_refl). rewrite !min_spec.
    rewrite u32_small by (unfold UINT_MOD; lia). lia.
  - rewrite !min_spec. lia.
Qed.

Lemma schedule_split_witness :
  let '(dp0_iters, dp1_iters, total_outpx) := schedule stride1_layer 1 in
  dp1_iters <= dp0_iters <= dp1_iters + 1
  /\ total_outpx = dp0_iters + dp1_iters
  /\ total_outpx = Z.min (2 * max_psums_per_act stride1_layer) (4 - 1).
Proof.
  exact (schedule_split stride1_layer 1 ltac:(vm_compute; intuition congruence)
                        ltac:(vm_compute; reflexivity)).
Defined.

Lemma vec_load_lane (b : fbuf) (vi w : Z) :
  0 <= w < VECTOR_SIZE ->
  vget (vec_load b vi) w = b (vi * VECTOR_SIZE + w).
Proof.
  unfold VECTOR_SIZE. intros Hw. unfold vec_load, vget.
  rewrite (nth_indep _ fzero (b (vi * 8 + Z.of_nat 0)))
    by (rewrite length_map, length_seq; lia).
  rewrite (map_nth (fun j0 => b (vi * 8 + Z.of_nat j0))).
  rewrite seq_nth by lia. f_equal. lia.
Qed.

Lemma vec_load_wf (b : fbuf) (vi : Z) : v8fp_wf (vec_load b vi).
Proof. unfold v8fp_wf, vec_load. rewrite length_map, length_seq. reflexivity. Qed.

(** The weights buffer in double-throughput mode: the row in both halves. *)
Lemma load_weights_lane_double (L : layer_t) (kernels : fbuf)
      (kern chan kern_row j : Z) :
  double_tp L = true -> 0 <= j < VECTOR_SIZE ->
  vget (load_weights L kernels kern chan kern_row) j
  = if j mod DATAPATH_WIDTH <? k_width L
    then kernels (kernel_row_base L kern chan kern_row + j mod DATAPATH_WIDTH)
    else fzero.
Proof.
  intros Edt Hj. unfold load_weights, kernel_row_base. rewrite Edt.
  set (base := VEC_ARRAY_4D (k_height L) (k_width L) (k_padded_width L)
                            kern chan kern_row 0).
  set (wgt := vec_load kernels base).
  pose proof (vec_load_lane kernels base) as Hwgt. fold wgt in Hwgt.
  unfold VECTOR_SIZE, DATAPATH_WIDTH in *.
  unfold double_tp, DATAPATH_WIDTH in Edt. apply Z.ltb_lt in Edt.
  set (body := fun w (wb : v8fp_t) =>
                 vset (vset wb w (vget wgt w)) (4 + w) (vget wgt w)).
  assert (HP : forall n, 0 <= n <= 4 ->
             v8fp_wf (for_loop n body v8fp_zero)
             /\ forall i, 0 <= i < 8 ->
                  vget (for_loop n body v8fp_zero) i
                  = if i mod 4 <? n then vget wgt (i mod 4) else fzero).
  { intros n Hn.
    apply (for_loop_ind
             (fun k r => v8fp_wf r /\ forall i, 0 <= i < 8 ->
                vget r i = if i mod 4 <? k then vget wgt (i mod 4)
                           else fzero)); [lia | |].
    - split; [apply v8fp_zero_wf|]. intros i Hi. rewrite vget_zero.
      pose proof (Z.mod_pos_bound i 4 ltac:(lia)).
      replace (i mod 4 <? 0) with false by (symmetry; apply Z.ltb_ge; lia).
      reflexivity.
    - intros k r Hk [Hr Hl]. unfold body. split.
      + apply vset_wf, vset_wf, Hr.
      + intros i Hi.
        rewrite vget_vset by (unfold VECTOR_SIZE; try apply vset_wf; auto; lia).
        rewrite vget_vset by (unfold VECTOR_SIZE; auto; lia).
        rewrite Hl by lia.
        pose proof (Z.mod_pos_bound i 4 ltac:(lia)) as Hm.
        pose proof (Z.div_mod i 4 ltac:(lia)) as Hd.
        assert (Hq : 0 <= i / 4 < 2)
          by (split; [apply Z.div_pos; lia
                     | apply Z.div_lt_upper_bound; lia]).
        destruct (i =? 4 + k) eqn:E1.
        { apply Z.eqb_eq in E1.
          assert (Em : i mod 4 = k) by lia. rewrite Em.
          replace (k <? k + 1) with true by (symmetry; apply Z.ltb_lt; lia).
          reflexivity. }
        apply Z.eqb_neq in E1.
        destruct (i =? k) eqn:E2.
        { apply Z.eqb_eq in E2.
          assert (Em : i mod 4 = k) by lia. rewrite Em.
          replace (k <? k + 1) with true by (symmetry; apply Z.ltb_lt; lia).
          reflexivity. }
        apply Z.eqb_neq in E2.
        assert (Em : i mod 4 <> k) by lia.
        destruct (i mod 4 <? k) eqn:E3.
        { apply Z.ltb_lt in E3.
          replace (i mod 4 <? k + 1) with true
            by (symmetry; apply Z.ltb_lt; lia).
          reflexivity. }
        apply Z.ltb_ge in E3.
        replace (i mod 4 <? k + 1) with false
          by (symmetry; apply Z.ltb_ge; lia).
        reflexivity. }
  pose proof (Z.mod_pos_bound j 4 ltac:(lia)) as Hjm.
  destruct (Z.le_gt_cases 0 (k_width L)) as [Hk|Hk].
  - destruct (HP (k_width L) ltac:(lia)) as [_ HP'].
    fold body. rewrite HP' by lia.
    destruct (j mod 4 <? k_width L); [|reflexivity].
    apply Hwgt. lia.
  - fold body. rewrite for_loop_nonpos by lia. rewrite vget_zero.
    replace (j mod 4 <? k_width L) with false
      by (symmetry; apply Z.ltb_ge; lia).
    reflexivity.
Qed.

(** The weights buffer in single-throughput mode: the row, once. *)
Lemma load_weights_lane_single (L : layer_t) (kernels : fbuf)
      (kern chan kern_row j : Z) :
  double_tp L = false -> 0 <= j < VECTOR_SIZE ->
  vget (load_weights L kernels kern chan kern_row) j
  = if j <? k_width L
    then kernels (kernel_row_base L kern chan kern_row + j)
    else fzero.
Proof.
  intros Edt Hj. unfold load_weights, kernel_row_base. rewrite Edt.
  set (base := VEC_ARRAY_4D (k_height L) (k_width L) (k_padded_width L)
                            kern chan kern_row 0).
  set (wgt := vec_load kernels base).
  pose proof (vec_load_lane kernels base) as Hwgt. fold wgt in Hwgt.
  unfold VECTOR_SIZE, DATAPATH_WIDTH in *.
  set (body := fun w (wb : v8fp_t) => vset wb w (vget wgt w)).
  assert (HP : forall n, 0 <= n <= 8 ->
             forall i, 0 <= i < 8 ->
               vget (for_loop n body v8fp_zero) i
               = if i <? n then vget wgt i else fzero).
  { intros n Hn.
    apply (for_loop_ind
             (fun k r => v8fp_wf r /\ forall i, 0 <= i < 8 ->
                vget r i = if i <? k then vget wgt i else fzero));
      [lia | |].
    - split; [apply v8fp_zero_wf|]. intros i Hi. rewrite vget_zero.
      replace (i <? 0) with false by (symmetry; apply Z.ltb_ge; lia).
      reflexivity.
    - intros k r Hk [Hr Hl]. unfold body. split; [apply vset_wf, Hr|].
      intros i Hi. rewrite vget_vset by (unfold VECTOR_SIZE; auto; lia).
      rewrite Hl by lia.
      destruct (i =? k) eqn:E1.
      { apply Z.eqb_eq in E1. subst i.
        replace (k <? k + 1) with true by (symmetry; apply Z.ltb_lt; lia).
        reflexivity. }
      apply Z.eqb_neq in E1.
      destruct (i <? k) eqn:E3.
      { apply Z.ltb_lt in E3.
        replace (i <? k + 1) with true by (symmetry; apply Z.ltb_lt; lia).
        reflexivity. }
      apply Z.ltb_ge in E3.
      replace (i <? k + 1) with false by (symmetry; apply Z.ltb_ge; lia).
      reflexivity. }
  unfold double_tp, DATAPATH_WIDTH in Edt. apply Z.ltb_ge in Edt.
  fold body. rewrite min_spec.
  rewrite (HP (Z.min (k_width L) 8) ltac:(lia) j Hj).
  destruct (j <? k_width L) eqn:E.
  - apply Z.ltb_lt in E.
    replace (j <? Z.min (k_width L) 8) with true
      by (symmetry; apply Z.ltb_lt; lia).
    apply Hwgt. lia.
  - apply Z.ltb_ge in E.
    replace (j <? Z.min (k_width L) 8) with false
      by (symmetry; apply Z.ltb_ge; lia).
    reflexivity.
Qed.

(** X4.  The weights buffer built for one kernel row.  In double-throughput
    mode lanes [w] and [DATAPATH_WIDTH + w] both hold weight [w] of the row
    for [w < k_width]; in single-throughput mode lane [w] holds weight [w]
    for [w < k_width]; every other lane is zero. *)
Theorem load_weights_lanes (curr_layer : layer_t) (kernels : fbuf)
        (kern chan kern_row : Z) :
  forall j, 0 <= j < VECTOR_SIZE ->
    vget (load_weights curr_layer kernels kern chan kern_row) j
    = if double_tp curr_layer
      then if j mod DATAPATH_WIDTH <? k_width curr_layer
           then kernels (kernel_row_base curr_layer kern chan kern_row
                         + j mod DATAPATH_WIDTH)
           else fzero
      else if j <? k_width curr_layer
           then kernels (kernel_row_base curr_layer kern chan kern_row + j)
           else fzero.
Proof.
  intros j Hj. destruct (double_tp curr_layer) eqn:Edt.
  - apply load_weights_lane_double; assumption.
  - apply load_weights_lane_single; assumption.
Qed.

Lemma load_weights_lanes_witness :
  vget (load_weights stride1_layer ones_buf 0 0 1) 5 = f_one
  /\ vget (load_weights stride1_layer ones_buf 0 0 1) 7 = fzero.
Proof.
  split.
  - exact (load_weights_lanes stride1_layer ones_buf 0 0 1 5
                               ltac:(unfold VECTOR_SIZE; lia)).
  - exact (load_weights_lanes stride1_layer ones_buf 0 0 1 7
                               ltac:(unfold VECTOR_SIZE; lia)).
Defined.

Lemma load_activations_rows (L : layer_t) (a : fbuf) (img chan row in_col : Z) :
  forall ld, In ld (snd (load_activations L a img chan row in_col)) ->
    fst ld = row.
Proof.
  intros ld. unfold load_activations.
  destruct (has_boundary_case L && (in_col =? end_col_marker L)); simpl.
  - intros [<-|[]]. reflexivity.
  - intros [<-|[<-|[]]]; reflexivity.
Qed.

Lemma conv2d_row_body_load_rows (L : layer_t) (img kern chan : Z)
      (in_row out_row : Z) (st : conv_state) :
  0 <= in_row < end_row L ->
  Forall (fun ld => 0 <= fst ld < a_height L) (cs_loads st) ->
  Forall (fun ld => 0 <= fst ld < a_height L)
         (cs_loads (conv2d_row_body L img kern chan in_row out_row st)).
Proof.
  intros Hin Hl. unfold conv2d_row_body.
  apply (for_loop_inv
           (fun s : conv_state * Z =>
              Forall (fun ld => 0 <= fst ld < a_height L) (cs_loads (fst s))));
    [exact Hl|].
  intros g [t oc] _ Ht. cbn [fst] in Ht.
  destruct (schedule L oc) as [[dp0 dp1] total] eqn:Es.
  rewrite (conv2d_col_unfold _ _ _ _ _ _ _ _ _ dp0 dp1 total Es).
  cbn [fst cs_loads].
  apply (for_loop_inv
           (fun k : list (Z * Z) * v8fp_t * v8fp_t =>
              Forall (fun ld => 0 <= fst ld < a_height L) (fst (fst k))));
    [exact Ht|].
  intros kr k Hkr Hk. rewrite conv2d_kern_row_loads.
  apply Forall_app. split; [|exact Hk].
  apply Forall_forall. intros ld Hld.
  apply load_activations_rows in Hld. rewrite Hld.
  unfold end_row, end_kern in *. lia.
Qed.

Lemma conv2d_row_stride0 (L : layer_t) (img kern chan : Z) :
  k_stride L = 0 -> 0 < end_row L ->
  forall (fuel : nat) (out_row : Z) (st : conv_state),
    conv2d_row fuel L img kern chan 0 out_row st = None.
Proof.
  intros Hst He. induction fuel as [|f IH]; intros out_row st;
    simpl; replace (0 <? end_row L) with true
      by (symmetry; apply Z.ltb_lt; lia).
  - reflexivity.
  - unfold row_stride. rewrite Hst. apply IH.
Qed.

(** X5.  When a call returns.  With a positive stride it returns, within
    [end_row] passes of the row loop.  With no row to process
    ([a_height - k_width + 1 <= 0]) it returns at once, whatever the
    stride: no load, and the three buffers as they were.  With stride 0
    and a row to process [in_row] stays 0: a pass of the row loop leaves
    the result buffer as it was and reads rows of the input plane only,
    and the loop has not ended after any number of passes below [2^31],
    the range of the counter [out_row]. *)
Theorem convolution2d_returns (a kernels : fbuf) (img kern chan : Z)
        (curr_layer : layer_t) (result : fbuf) :
  (0 < k_stride curr_layer ->
   forall fuel, (row_fuel curr_layer <= fuel)%nat ->
     exists st',
       convolution2d_smiv_1kernel_1channel_simd_fxp
         fuel a kernels img kern chan curr_layer result = Some st')
  /\ (end_row curr_layer <= 0 ->
      forall fuel,
        convolution2d_smiv_1kernel_1channel_simd_fxp
          fuel a kernels img kern chan curr_layer result
        = Some (mk_conv_state a kernels result []))
  /\ (k_stride curr_layer = 0 -> 0 < end_row curr_layer ->
      (forall fuel, Z.of_nat fuel < 2 ^ 31 ->
         convolution2d_smiv_1kernel_1channel_simd_fxp
           fuel a kernels img kern chan curr_layer result = None)
      /\ forall (out_row : Z) (st : conv_state),
           let st' := conv2d_row_body curr_layer img kern chan 0 out_row st in
           cs_result st' = cs_result st
           /\ (Forall (fun ld => 0 <= fst ld < a_height curr_layer)
                      (cs_loads st) ->
               Forall (fun ld => 0 <= fst ld < a_height curr_layer)
                      (cs_loads st'))).
Proof.
  split; [|split].
  - intros Hs fuel Hf. unfold convolution2d_smiv_1kernel_1channel_simd_fxp.
    apply conv2d_row_returns; assumption.
  - intros He fuel. unfold convolution2d_smiv_1kernel_1channel_simd_fxp.
    destruct fuel; simpl;
      replace (0 <? end_row curr_layer) with false
        by (symmetry; apply Z.ltb_ge; lia);
      reflexivity.
  - intros Hs He. split.
    + intros fuel _. unfold convolution2d_smiv_1kernel_1channel_simd_fxp.
      apply conv2d_row_stride0; assumption.
    + intros out_row st st'. split.
      * apply conv2d_row_body_unsupported.
        unfold max_psums_per_act. rewrite Hs. reflexivity.
      * apply conv2d_row_body_load_rows. lia.
Qed.

Lemma convolution2d_returns_witness :
  (exists st',
      convolution2d_smiv_1kernel_1channel_simd_fxp
        1 zero_buf ones_buf 0 0 0 stride3_layer ones_buf = Some st')
  /\ convolution2d_smiv_1kernel_1channel_simd_fxp
       5 zero_buf ones_buf 0 0 0 stride0_layer ones_buf = None.
Proof.
  split.
  - apply (proj1 (convolution2d_returns zero_buf ones_buf 0 0 0 stride3_layer
                                        ones_buf)).
    + vm_compute. reflexivity.
    + vm_compute. apply le_n.
  - apply (proj2 (proj2 (convolution2d_returns zero_buf ones_buf 0 0 0
                                                stride0_layer ones_buf))).
    + vm_compute. reflexivity.
    + vm_compute. reflexivity.
    + vm_compute. reflexivity.
Defined.

(** With stride 2 or 4 a column group holds at most four pixels. *)
Lemma schedule_total_half (L : layer_t) (out_col : Z) :
  k_stride L = 2 \/ k_stride L = 4 ->
  0 <= snd (schedule L out_col) <= 4.
Proof.
  intros Hs. unfold schedule.
  pose proof (u32_range (result_width L - out_col)) as Hr.
  set (rem := u32 (result_width L - out_col)) in *.
  unfold UINT_MOD in Hr.
  pose proof (Z.mod_pos_bound rem 2 ltac:(lia)) as Hmb.
  assert (Hdiv : 0 <= rem / 2) by (apply Z.div_pos; lia).
  assert (Hm : max_psums_per_act L = if double_tp L then 2
                                     else if k_stride L =? 2 then 4 else 2).
  { unfold max_psums_per_act, DATAPATH_WIDTH.
    destruct Hs as [-> | ->]; simpl; destruct (double_tp L); reflexivity. }
  rewrite Hm. rewrite !min_spec.
  destruct (double_tp L); simpl.
  - rewrite u32_small by (unfold UINT_MOD; lia). lia.
  - destruct (k_stride L =? 2); lia.
Qed.

(** X6.  With stride 2 or 4 a call writes lanes 0 to 3 of a vector of the
    result only: every element of the result buffer whose index is 4 to 7
    modulo [VECTOR_SIZE] has after the call the value it had before.  In an
    output row of more than four pixels, the pixels at columns 4 to 7 of a
    vector are never written. *)
Theorem commit_upper_lanes_untouched (fuel : nat) (a kernels : fbuf)
        (img kern chan : Z) (curr_layer : layer_t) (result : fbuf)
        (st' : conv_state) :
  k_stride curr_layer = 2 \/ k_stride curr_layer = 4 ->
  convolution2d_smiv_1kernel_1channel_simd_fxp
    fuel a kernels img kern chan curr_layer result = Some st' ->
  forall idx, 4 <= idx mod VECTOR_SIZE -> cs_result st' idx = result idx.
Proof.
  intros Hs Hrun idx Hidx.
  unfold convolution2d_smiv_1kernel_1channel_simd_fxp in Hrun.
  destruct (conv2d_row_partial curr_layer img kern chan
              (fun _ _ st => cs_result st idx = result idx))
    with (fuel := fuel) (in_row := 0) (out_row := 0)
         (st := mk_conv_state a kernels result []) (st' := st')
    as (_ & _ & HP); auto.
  intros in_row out_row st Hst _. unfold conv2d_row_body.
  apply (for_loop_inv
           (fun s : conv_state * Z => cs_result (fst s) idx = result idx));
    [exact Hst|].
  intros j [t oc] _ Ht. simpl in Ht.
  destruct (schedule curr_layer oc) as [[dp0 dp1] total] eqn:Es.
  pose proof (schedule_total_half curr_layer oc Hs) as Htot.
  rewrite Es in Htot. simpl in Htot.
  rewrite (conv2d_col_unfold _ _ _ _ _ _ _ _ _ dp0 dp1 total Es).
  simpl. rewrite conv2d_commit_frame; [exact Ht|].
  unfold VECTOR_SIZE in *. intros Hin.
  set (b := VEC_ARRAY_3D (result_height curr_layer)
                         (result_padded_width curr_layer) chan out_row
                         (Z.quot oc 8)) in *.
  assert (Hmod : idx mod 8 = idx - b * 8).
  { symmetry. apply Z.mod_unique with b; lia. }
  lia.
Qed.

Lemma commit_upper_lanes_untouched_witness :
  exists st',
    convolution2d_smiv_1kernel_1channel_simd_fxp
      1 zero_buf ones_buf 0 0 0 stride2_layer ones_buf = Some st'
    /\ cs_result st' 5 = ones_buf 5.
Proof.
  destruct (conv2d_row_returns stride2_layer 0 0 0 1
              (mk_conv_state zero_buf ones_buf ones_buf [])
              ltac:(vm_compute; reflexivity) ltac:(vm_compute; lia))
    as [st' Hrun].
  exists st'. split; [exact Hrun|].
  apply (commit_upper_lanes_untouched
           1 zero_buf ones_buf 0 0 0 stride2_layer ones_buf st').
  - left. reflexivity.
  - exact Hrun.
  - vm_compute. congruence.
Defined.

(** X7.  With a positive stride every activation load of a call reads a
    row of the input plane: its row index is at least 0 and below
    [a_height]. *)
Theorem load_rows_in_plane (fuel : nat) (a kernels : fbuf) (img kern chan : Z)
        (curr_layer : layer_t) (result : fbuf) (st' : conv_state) :
  0 < k_stride curr_layer ->
  convolution2d_smiv_1kernel_1channel_simd_fxp
    fuel a kernels img kern chan curr_layer result = Some st' ->
  Forall (fun ld => 0 <= fst ld < a_height curr_layer) (cs_loads st').
Proof.
  intros Hst Hrun.
  unfold convolution2d_smiv_1kernel_1channel_simd_fxp in Hrun.
  destruct (conv2d_row_partial curr_layer img kern chan
              (fun in_row _ st =>
                 0 <= in_row
                 /\ Forall (fun ld => 0 <= fst ld < a_height curr_layer)
                           (cs_loads st)))
    with (fuel := fuel) (in_row := 0) (out_row := 0)
         (st := mk_conv_state a kernels result []) (st' := st')
    as (ir & _ & _ & HP).
  - intros in_row out_row st [H0 Hl] Hlt. split.
    + unfold row_stride. lia.
    + apply conv2d_row_body_load_rows; [lia | exact Hl].
  - split; [lia | constructor].
  - exact Hrun.
  - exact HP.
Qed.

Lemma load_rows_in_plane_witness :
  exists st',
    convolution2d_smiv_1kernel_1channel_simd_fxp
      4 ones_buf ones_buf 0 0 0 stride1_layer zero_buf = Some st'
    /\ Forall (fun ld => 0 <= fst ld < a_height stride1_layer) (cs_loads st').
Proof.
  destruct (conv2d_row_returns stride1_layer 0 0 0 4
              (mk_conv_state ones_buf ones_buf zero_buf [])
              ltac:(vm_compute; reflexivity) ltac:(vm_compute; lia))
    as [st' Hrun].
  exists st'. split; [exact Hrun|].
  apply (load_rows_in_plane 4 ones_buf ones_buf 0 0 0 stride1_layer zero_buf).
  - vm_compute. reflexivity.
  - exact Hrun.
Defined.

End ConvMore.

(** ** The stride-1 convolution, pixel by pixel *)

Module ConvCorrect.
Import Conv ConvFacts ConvMore.

Lemma for_loop_ext_range {S : Type} (f g : Z -> S -> S) (n : Z) (s : S) :
  (forall j t, 0 <= j < n -> f j t = g j t) ->
  for_loop n f s = for_loop n g s.
Proof.
  intros H. unfold for_loop.
  assert (G : forall (count : nat) (i : Z) (t : S),
             0 <= i -> i + Z.of_nat count <= Z.max 0 n ->
             for_loop_from count i f t = for_loop_from count i g t).
  { induction count as [|c IH]; intros i t Hi Hc; simpl; [reflexivity|].
    rewrite H by lia. apply IH; lia. }
  apply G; lia.
Qed.

Lemma a_index_vector (L : layer_t) (img chan row g t : Z) :
  input_wf L ->
  VEC_ARRAY_4D (k_height L) (a_height L) (a_padded_width L) img chan row g
  * VECTOR_SIZE + t
  = a_index L img chan row (VECTOR_SIZE * g + t).
Proof.
  intros [Hw Hpad Hal].
  pose proof (padded_width_vectors (a_padded_width L)
                ltac:(unfold a_padded_width; lia) Hal) as HP.
  unfold VEC_ARRAY_4D, a_index. rewrite HP at 2.
  unfold VECTOR_SIZE. ring.
Qed.

(** The two shift registers after the activations are loaded: the same
    sixteen lanes, the activations of the group. *)
Lemma load_activations_regs (L : layer_t) (a : fbuf) (img chan row g : Z) :
  input_wf L ->
  let r := load_activations L a img chan row g in
  snd (fst r) = fst (fst r)
  /\ shift_reg_wf (fst (fst r))
  /\ forall t, 0 <= t < SHIFT_REG_SIZE ->
       flat_lane (fst (fst r)) t = tap L a img chan row g t.
Proof.
  intros Hwf r. unfold r, load_activations, tap, suppressed.
  rewrite (end_col_marker_eq L (iwf_width _ Hwf)).
  set (v0 := vec_load a (VEC_ARRAY_4D (k_height L) (a_height L)
                                      (a_padded_width L) img chan row g)).
  set (v1 := vec_load a (VEC_ARRAY_4D (k_height L) (a_height L)
                                      (a_padded_width L) img chan row (g + 1))).
  assert (Hlow : forall t, 0 <= t < 8 ->
             vget v0 t = a (a_index L img chan row (VECTOR_SIZE * g + t))).
  { intros t Ht. unfold v0. rewrite vec_load_lane by (unfold VECTOR_SIZE; lia).
    f_equal. apply a_index_vector. exact Hwf. }
  assert (Hhigh : forall t, 8 <= t < 16 ->
             vget v1 (t - 8)
             = a (a_index L img chan row (VECTOR_SIZE * g + t))).
  { intros t Ht. unfold v1. rewrite vec_load_lane by (unfold VECTOR_SIZE; lia).
    f_equal. rewrite a_index_vector by exact Hwf. f_equal.
    unfold VECTOR_SIZE. lia. }
  assert (Hsplit : forall (u0 u1 : v8fp_t) t, 0 <= t < 16 ->
             flat_lane [u0; u1] t
             = if t <? 8 then vget u0 t else vget u1 (t - 8)).
  { intros u0 u1 t Ht. unfold flat_lane, sr_get, VECTOR_SIZE.
    destruct (t <? 8) eqn:E.
    - apply Z.ltb_lt in E.
      rewrite (Z.div_small t 8), (Z.mod_small t 8) by lia. reflexivity.
    - apply Z.ltb_ge in E.
      replace (t / 8) with 1 by (apply Z.div_unique with (t - 8); lia).
      replace (t mod 8) with (t - 8)
        by (apply Z.mod_unique with 1; lia).
      reflexivity. }
  unfold SHIFT_REG_SIZE, VECTOR_SIZE in *.
  destruct (has_boundary_case L
            && (g =? input_fetches_per_row L - 1)) eqn:Es; simpl.
  - split; [reflexivity|]. split.
    + split; [reflexivity|].
      repeat constructor; apply vec_load_wf || apply v8fp_zero_wf.
    + intros t Ht. rewrite Hsplit by lia.
      destruct (t <? 8) eqn:E.
      * apply Z.ltb_lt in E.
        replace (8 <=? t) with false by (symmetry; apply Z.leb_gt; lia).
        simpl. apply Hlow. lia.
      * apply Z.ltb_ge in E.
        replace (8 <=? t) with true by (symmetry; apply Z.leb_le; lia).
        simpl. apply vget_zero.
  - split; [reflexivity|]. split.
    + split; [reflexivity|]. repeat constructor; apply vec_load_wf.
    + intros t Ht. rewrite Hsplit by lia. rewrite andb_false_r.
      destruct (t <? 8) eqn:E.
      * apply Z.ltb_lt in E. apply Hlow. lia.
      * apply Z.ltb_ge in E. apply Hhigh. lia.
Qed.

Lemma stride1_shamts (L : layer_t) :
  k_stride L = 1 ->
  dp_shamt L = (if double_tp L then 2 else 1)
  /\ init_shamt L = (if double_tp L then 1 else 4).
Proof.
  intros Hs. unfold dp_shamt, init_shamt. rewrite Hs.
  destruct (double_tp L); split; reflexivity.
Qed.

Lemma load_weights_low (L : layer_t) (kernels : fbuf) (kern chan kr j : Z) :
  0 <= j < DATAPATH_WIDTH ->
  vget (load_weights L kernels kern chan kr) (j + 0)
  = weight_at L kernels kern chan kr (j + 0).
Proof.
  unfold DATAPATH_WIDTH. intros Hj. rewrite Z.add_0_r. unfold weight_at.
  destruct (double_tp L) eqn:Edt.
  - rewrite load_weights_lane_double by (auto; unfold VECTOR_SIZE; lia).
    unfold DATAPATH_WIDTH. rewrite Z.mod_small by lia. reflexivity.
  - apply load_weights_lane_single; [exact Edt | unfold VECTOR_SIZE; lia].
Qed.

Lemma load_weights_high (L : layer_t) (kernels : fbuf) (kern chan kr j : Z) :
  0 <= j < DATAPATH_WIDTH ->
  vget (load_weights L kernels kern chan kr) (j + DATAPATH_WIDTH)
  = weight_at L kernels kern chan kr
              (j + if double_tp L then 0 else DATAPATH_WIDTH).
Proof.
  unfold DATAPATH_WIDTH. intros Hj. unfold weight_at.
  destruct (double_tp L) eqn:Edt.
  - rewrite load_weights_lane_double by (auto; unfold VECTOR_SIZE; lia).
    unfold DATAPATH_WIDTH.
    replace ((j + 4) mod 4) with j by (apply Z.mod_unique with 1; lia).
    rewrite Z.add_0_r. reflexivity.
  - apply load_weights_lane_single; [exact Edt | unfold VECTOR_SIZE; lia].
Qed.

(** One kernel row through pipe 0, and through pipe 1 whose register was
    shifted by [init] first. *)
Lemma window_pipe0 (L : layer_t) (a kernels : fbuf)
      (img kern chan row kr g s : Z) (p0 : shift_reg_t) (acc : float32) :
  (forall t, 0 <= t < SHIFT_REG_SIZE ->
     flat_lane p0 t = tap L a img chan row g t) ->
  0 <= s -> s + DATAPATH_WIDTH <= SHIFT_REG_SIZE ->
  window_acc (load_weights L kernels kern chan kr) 0 p0 s acc
  = mac_row L a kernels img kern chan row kr g 0 s acc.
Proof.
  intros Hl Hs Hs'. unfold window_acc, mac_row.
  apply for_loop_ext_range. intros j t Hj.
  rewrite load_weights_low by exact Hj.
  unfold lshift_spec, DATAPATH_WIDTH, SHIFT_REG_SIZE in *.
  replace (j + s <? 16) with true by (symmetry; apply Z.ltb_lt; lia).
  rewrite Hl by lia. reflexivity.
Qed.

Lemma window_pipe1 (L : layer_t) (a kernels : fbuf)
      (img kern chan row kr g s init : Z) (p0 : shift_reg_t)
      (acc : float32) :
  shift_reg_wf p0 ->
  (forall t, 0 <= t < SHIFT_REG_SIZE ->
     flat_lane p0 t = tap L a img chan row g t) ->
  0 <= s -> 0 <= init < UINT_MOD ->
  s + init + DATAPATH_WIDTH <= SHIFT_REG_SIZE ->
  window_acc (load_weights L kernels kern chan kr) DATAPATH_WIDTH
             (shift_reg_simd_lshift p0 init) s acc
  = mac_row L a kernels img kern chan row kr g
            (if double_tp L then 0 else DATAPATH_WIDTH) (s + init) acc.
Proof.
  intros Hwf Hl Hs Hi Hs'. unfold window_acc, mac_row.
  apply for_loop_ext_range. intros j t Hj.
  rewrite load_weights_high by exact Hj.
  unfold lshift_spec at 1. unfold DATAPATH_WIDTH, SHIFT_REG_SIZE in *.
  replace (j + s <? 16) with true by (symmetry; apply Z.ltb_lt; lia).
  rewrite shift_reg_simd_lshift_lane
    by (auto; unfold SHIFT_REG_SIZE; lia).
  unfold lshift_spec, SHIFT_REG_SIZE.
  replace (j + s + init <? 16) with true by (symmetry; apply Z.ltb_lt; lia).
  rewrite Hl by lia.
  replace (j + s + init) with (j + (s + init)) by lia. reflexivity.
Qed.

Lemma partial_chain_succ (L : layer_t) (a kernels : fbuf)
      (img kern chan orow g woff toff n : Z) :
  0 <= n ->
  partial_chain L a kernels img kern chan orow g woff toff (n + 1)
  = mac_row L a kernels img kern chan (orow + n) n g woff toff
            (partial_chain L a kernels img kern chan orow g woff toff n).
Proof.
  intros Hn. unfold partial_chain.
  exact (for_loop_succ
           (fun kern_row acc =>
              mac_row L a kernels img kern chan (orow + kern_row) kern_row g
                      woff toff acc) n fzero Hn).
Qed.

(** The partial sums after [n] kernel rows of one column group. *)
Lemma kern_row_loop (L : layer_t) (a kernels : fbuf)
      (img kern chan in_row g dp0 dp1 : Z) (loads : list (Z * Z)) (n : Z) :
  input_wf L -> k_stride L = 1 ->
  0 <= dp1 -> dp1 <= dp0 ->
  dp0 <= (if double_tp L then DATAPATH_WIDTH else VECTOR_SIZE) ->
  0 <= n ->
  let k := for_loop n
                    (conv2d_kern_row L a kernels img kern chan in_row g
                                     dp0 dp1)
                    (loads, v8fp_zero, v8fp_zero) in
  v8fp_wf (snd (fst k)) /\ v8fp_wf (snd k)
  /\ (forall i, 0 <= i < dp0 ->
        vget (snd (fst k)) i
        = partial_chain L a kernels img kern chan in_row g
                        0 (i * dp_shamt L) n)
  /\ (forall i, 0 <= i < dp1 ->
        vget (snd k) i
        = partial_chain L a kernels img kern chan in_row g
                        (if double_tp L then 0 else DATAPATH_WIDTH)
                        (i * dp_shamt L + init_shamt L) n).
Proof.
  intros Hwf Hst Hd1 Hd Hd0 Hn.
  destruct (stride1_shamts L Hst) as [Hdp Hinit].
  assert (Hdp0 : dp0 <= VECTOR_SIZE)
    by (destruct (double_tp L); unfold DATAPATH_WIDTH, VECTOR_SIZE in *; lia).
  apply for_loop_ind; [exact Hn | |].
  - simpl. repeat split; try apply v8fp_zero_wf;
      intros i Hi; rewrite vget_zero; unfold partial_chain;
      rewrite for_loop_nonpos by lia; reflexivity.
  - intros kr [[lds ps0] ps1] Hkr (W0 & W1 & L0 & L1). simpl in W0, W1, L0, L1.
    unfold conv2d_kern_row.
    destruct (load_activations_regs L a img chan (in_row + kr) g Hwf)
      as (Heq & Hrwf & Hlanes).
    destruct (load_activations L a img chan (in_row + kr) g)
      as [[p0 p1] nl]. simpl in Heq, Hrwf, Hlanes. subst p1.
    assert (Hsh : 0 <= dp_shamt L < UINT_MOD)
      by (rewrite Hdp; unfold UINT_MOD; destruct (double_tp L); lia).
    assert (Hin : 0 <= init_shamt L < UINT_MOD)
      by (rewrite Hinit; unfold UINT_MOD; destruct (double_tp L); lia).
    pose proof (shift_reg_simd_lshift_wf p0 (init_shamt L) Hrwf) as Hrwf1.
    destruct (conv_macc_datapath_simd_fxp_inv
                (load_weights L kernels kern chan kr) p0
                (shift_reg_simd_lshift p0 (init_shamt L))
                (dp_shamt L) dp0 dp1 ps0 ps1 W0 W1 ltac:(lia))
      as (_ & _ & V0 & V1 & M0 & M1).
    simpl. split; [exact V0|]. split; [exact V1|]. split.
    + intros i Hi. rewrite M0 by lia.
      replace (i <? dp0) with true by (symmetry; apply Z.ltb_lt; lia).
      rewrite dot_product_acc_window by (auto; lia).
      rewrite partial_chain_succ by lia. rewrite <- L0 by lia.
      apply window_pipe0; [exact Hlanes | nia |].
      rewrite Hdp. unfold DATAPATH_WIDTH, SHIFT_REG_SIZE, VECTOR_SIZE in *.
      destruct (double_tp L); lia.
    + intros i Hi. rewrite M1 by lia.
      replace (i <? dp0) with true by (symmetry; apply Z.ltb_lt; lia).
      replace (i <? dp1) with true by (symmetry; apply Z.ltb_lt; lia).
      simpl. rewrite dot_product_acc_window by (auto; lia).
      rewrite partial_chain_succ by lia. rewrite <- L1 by lia.
      apply window_pipe1; auto; [nia|].
      rewrite Hdp, Hinit.
      unfold DATAPATH_WIDTH, SHIFT_REG_SIZE, VECTOR_SIZE in *.
      destruct (double_tp L); lia.
Qed.

(** The schedule of a column group of a stride-1 layer that starts inside
    the row. *)
Lemma schedule_stride1 (L : layer_t) (oc dp0 dp1 total : Z) :
  k_stride L = 1 -> 0 <= oc < result_width L -> result_width L < 2 ^ 31 ->
  schedule L oc = (dp0, dp1, total) ->
  total = Z.min VECTOR_SIZE (result_width L - oc)
  /\ 0 <= dp1 /\ dp1 <= dp0
  /\ dp0 <= (if double_tp L then DATAPATH_WIDTH else VECTOR_SIZE)
  /\ (if double_tp L
      then forall p, 0 <= p < total ->
             if Z.even p then p / 2 < dp0 else p / 2 < dp1
      else dp0 = total /\ dp1 = total).
Proof.
  intros Hst Hoc Hrw Hs. unfold schedule in Hs.
  assert (Hm : max_psums_per_act L = if double_tp L then 4 else 8).
  { unfold max_psums_per_act, DATAPATH_WIDTH. rewrite Hst. simpl.
    destruct (double_tp L); reflexivity. }
  rewrite Hm in Hs. rewrite u32_small in Hs by (unfold UINT_MOD; lia).
  unfold VECTOR_SIZE, DATAPATH_WIDTH.
  set (rem := result_width L - oc) in *.
  assert (Hrem : 0 < rem) by (unfold rem; lia).
  pose proof (Z.div_mod rem 2 ltac:(lia)) as Hdm.
  pose proof (Z.mod_pos_bound rem 2 ltac:(lia)) as Hmb.
  destruct (double_tp L).
  - rewrite !min_spec in Hs.
    rewrite u32_small in Hs by (unfold UINT_MOD; lia).
    injection Hs as <- <- <-.
    repeat split; try lia.
    intros p Hp. pose proof (Zmod_even p) as He.
    pose proof (Z.div_mod p 2 ltac:(lia)) as Hpd.
    destruct (Z.even p); lia.
  - rewrite !min_spec in Hs. injection Hs as <- <- <-.
    repeat split; lia.
Qed.

(** What the commit loop writes. *)
Lemma conv2d_commit_written (L : layer_t) (chan out_row out_col total : Z)
      (final_psums : v8fp_t) (result : fbuf) :
  let base := VEC_ARRAY_3D (result_height L) (result_padded_width L)
                           chan out_row (Z.quot out_col VECTOR_SIZE)
              * VECTOR_SIZE in
  forall j, 0 <= j < total ->
    for_loop total (conv2d_commit L chan out_row out_col final_psums) result
             (base + j)
    = vget final_psums j.
Proof.
  intros base j Hj.
  assert (G : forall n, 0 <= n ->
             forall i, 0 <= i < n ->
               for_loop n (conv2d_commit L chan out_row out_col final_psums)
                        result (base + i)
               = vget final_psums i).
  { intros n Hn.
    apply (for_loop_ind
             (fun k (r : fbuf) =>
                forall i, 0 <= i < k -> r (base + i) = vget final_psums i));
      [exact Hn | intros; lia |].
    intros k r Hk Hr i Hi. unfold conv2d_commit, buf_set. fold base.
    destruct (base + i =? base + k) eqn:E.
    - apply Z.eqb_eq in E. replace i with k by lia. reflexivity.
    - apply Z.eqb_neq in E. apply Hr. lia. }
  apply G; lia.
Qed.

Lemma result_index_vector (L : layer_t) (chan row g : Z) :
  0 <= result_width L -> 0 <= result_pad L ->
  result_padded_width L mod VECTOR_SIZE = 0 -> 0 <= g ->
  VEC_ARRAY_3D (result_height L) (result_padded_width L) chan row
               (Z.quot (VECTOR_SIZE * g) VECTOR_SIZE)
  * VECTOR_SIZE
  = result_index L chan row (VECTOR_SIZE * g).
Proof.
  intros Hw Hpad Hal Hg.
  pose proof (padded_width_vectors (result_padded_width L)
                ltac:(unfold result_padded_width; lia) Hal) as HP.
  unfold VEC_ARRAY_3D, result_index. rewrite HP at 2.
  unfold VECTOR_SIZE.
  replace (Z.quot (8 * g) 8) with g
    by (rewrite Z.quot_div_nonneg by lia;
        apply Z.div_unique with 0; lia).
  ring.
Qed.

(** One column group of a stride-1 layer, started at [out_col = 8 * g]:
    its pixels get their value and nothing else changes. *)
Lemma conv2d_col_stride1 (L : layer_t) (a kernels : fbuf)
      (img kern chan r g : Z) (st : conv_state) :
  stride1_wf L -> cs_a st = a -> cs_kernels st = kernels ->
  0 <= g -> VECTOR_SIZE * g < result_width L ->
  let s' := conv2d_col L img kern chan r r g (st, VECTOR_SIZE * g) in
  cs_a (fst s') = a
  /\ cs_kernels (fst s') = kernels
  /\ snd s' = (if VECTOR_SIZE * (g + 1) <? result_width L
               then VECTOR_SIZE * (g + 1) else 0)
  /\ (forall p, 0 <= p < VECTOR_SIZE ->
        VECTOR_SIZE * g + p < result_width L ->
        cs_result (fst s') (result_index L chan r (VECTOR_SIZE * g + p))
        = pixel_spec L a kernels img kern chan r (VECTOR_SIZE * g + p))
  /\ (forall idx,
        ~ (result_index L chan r (VECTOR_SIZE * g) <= idx
           < result_index L chan r (VECTOR_SIZE * g)
             + Z.min VECTOR_SIZE (result_width L - VECTOR_SIZE * g)) ->
        cs_result (fst s') idx = cs_result st idx).
Proof.
  intros [Hst Hk Hin Hw Hne Hpad Hal] Ha Hker Hg Hlt s'.
  pose proof (iwf_width _ Hin) as Haw.
  assert (Hrw : result_width L < 2 ^ 31) by (unfold VECTOR_SIZE in *; lia).
  destruct (schedule L (VECTOR_SIZE * g)) as [[dp0 dp1] total] eqn:Es.
  destruct (schedule_stride1 L (VECTOR_SIZE * g) dp0 dp1 total Hst
                             ltac:(unfold VECTOR_SIZE in *; lia) Hrw Es)
    as (Ht & Hd1 & Hd & Hd0 & Hmode).
  unfold s'. clear s'.
  rewrite (conv2d_col_unfold _ _ _ _ _ _ _ _ _ dp0 dp1 total Es).
  cbv zeta. rewrite Ha, Hker.
  destruct (kern_row_loop L a kernels img kern chan r g dp0 dp1
                          (cs_loads st) (end_kern L) Hin Hst Hd1 Hd Hd0
                          ltac:(unfold end_kern; lia))
    as (W0 & W1 & P0 & P1).
  set (k := for_loop (end_kern L)
                     (conv2d_kern_row L a kernels img kern chan r g dp0 dp1)
                     (cs_loads st, v8fp_zero, v8fp_zero)) in *.
  clearbody k.
  cbn [fst snd cs_a cs_kernels cs_result].
  pose proof (result_index_vector L chan r g ltac:(lia) Hpad Hal Hg) as Hbase.
  destruct (stride1_shamts L Hst) as [Hdp Hinit].
  split; [reflexivity|]. split; [reflexivity|]. split; [|split].
  - rewrite u32_small by (unfold UINT_MOD, VECTOR_SIZE in *; lia).
    rewrite s32_small by (unfold VECTOR_SIZE in *; lia).
    unfold VECTOR_SIZE in *.
    destruct (8 * (g + 1) <? result_width L) eqn:E.
    + apply Z.ltb_lt in E.
      replace (8 * g + total >=? result_width L) with false
        by (symmetry; rewrite Z.geb_leb; apply Z.leb_gt; lia).
      lia.
    + apply Z.ltb_ge in E.
      replace (8 * g + total >=? result_width L) with true
        by (symmetry; rewrite Z.geb_leb; apply Z.leb_le; lia).
      reflexivity.
  - intros p Hp Hpw.
    assert (Hpt : 0 <= p < total) by (unfold VECTOR_SIZE in *; lia).
    replace (result_index L chan r (VECTOR_SIZE * g + p))
      with (VEC_ARRAY_3D (result_height L) (result_padded_width L) chan r
                         (Z.quot (VECTOR_SIZE * g) VECTOR_SIZE)
            * VECTOR_SIZE + p)
      by (rewrite Hbase; unfold result_index; lia).
    rewrite conv2d_commit_written by exact Hpt.
    unfold pixel_spec. unfold VECTOR_SIZE in *.
    replace ((8 * g + p) / 8) with g by (apply Z.div_unique with p; lia).
    replace ((8 * g + p) mod 8) with p by (apply Z.mod_unique with g; lia).
    unfold end_kern in *.
    destruct (double_tp L) eqn:Edt.
    + rewrite merge_psums_double_tp_lanes by (unfold VECTOR_SIZE; lia).
      specialize (Hmode p Hpt).
      pose proof (Zmod_even p) as He.
      pose proof (Z.div_mod p 2 ltac:(lia)) as Hpd.
      assert (Hp2 : 0 <= p / 2) by (apply Z.div_pos; lia).
      f_equal. destruct (Z.even p).
      * rewrite P0 by lia. rewrite Hdp. f_equal. lia.
      * rewrite P1 by lia. rewrite Hdp, Hinit. f_equal. lia.
    + rewrite merge_psums_single_tp_lanes by (unfold VECTOR_SIZE; lia).
      destruct Hmode as [-> ->].
      rewrite P0, P1 by lia. rewrite Hdp, Hinit.
      unfold DATAPATH_WIDTH. repeat f_equal; lia.
  - intros idx Hidx. apply conv2d_commit_frame. rewrite Hbase.
    rewrite Ht. exact Hidx.
Qed.

Lemma has_boundary_case_eq (L : layer_t) :
  0 <= a_width L < 2 ^ 31 -> 1 <= input_fetches_per_row L ->
  0 <= result_width L * k_stride L < UINT_MOD ->
  has_boundary_case L
  = (result_width L * k_stride L
     >? (input_fetches_per_row L - 1) * VECTOR_SIZE).
Proof.
  intros Hw H1 Hrs. destruct (frac_ceil_range _ Hw) as (HF & _).
  unfold has_boundary_case, last_input_pixel_start_col.
  rewrite input_fetches_per_row_eq in * by exact Hw.
  set (F := FRAC_CEIL (a_width L) VECTOR_SIZE) in *.
  unfold VECTOR_SIZE, UINT_MOD in *.
  rewrite (u32_small (F - 1)) by (unfold UINT_MOD; lia).
  rewrite (u32_small ((F - 1) * 8)) by (unfold UINT_MOD; lia).
  rewrite u32_small by (unfold UINT_MOD; lia).
  reflexivity.
Qed.

Lemma frac_ceil_tight (x : Z) :
  1 <= x ->
  VECTOR_SIZE * (FRAC_CEIL x VECTOR_SIZE - 1) < x
  /\ x <= VECTOR_SIZE * FRAC_CEIL x VECTOR_SIZE.
Proof.
  intros Hx. unfold FRAC_CEIL, VECTOR_SIZE.
  pose proof (Z.quot_rem' x 8) as Hqr.
  pose proof (Z.rem_bound_pos x 8 ltac:(lia) ltac:(lia)) as Hrb.
  destruct (Z.rem x 8 =? 0) eqn:E;
    [apply Z.eqb_eq in E | apply Z.eqb_neq in E]; lia.
Qed.

(** A stride-1 layer has exactly as many column groups as its output row
    needs. *)
Lemma end_col_stride1 (L : layer_t) :
  stride1_wf L ->
  0 <= end_col L
  /\ VECTOR_SIZE * (end_col L - 1) < result_width L
  /\ result_width L <= VECTOR_SIZE * end_col L.
Proof.
  intros [Hst Hk Hin Hw Hne Hpad Hal].
  pose proof (iwf_width _ Hin) as Haw.
  assert (Ha1 : 1 <= a_width L) by (unfold VECTOR_SIZE in *; lia).
  destruct (frac_ceil_tight (a_width L) Ha1) as [Hc1 Hc2].
  pose proof (input_fetches_per_row_eq L Haw) as HFe.
  rewrite <- HFe in Hc1, Hc2.
  assert (HF1 : 1 <= input_fetches_per_row L)
    by (unfold VECTOR_SIZE in *; lia).
  rewrite (end_col_eq L Haw HF1).
  rewrite (has_boundary_case_eq L Haw HF1)
    by (rewrite Hst; unfold UINT_MOD, VECTOR_SIZE in *; lia).
  rewrite Hst, Z.mul_1_r. unfold VECTOR_SIZE in *.
  destruct (result_width L >? (input_fetches_per_row L - 1) * 8) eqn:E.
  - apply Z.gtb_lt in E. lia.
  - rewrite Z.gtb_ltb in E. apply Z.ltb_ge in E. lia.
Qed.

(** One output row of a stride-1 layer. *)
Lemma conv2d_row_body_stride1 (L : layer_t) (a kernels : fbuf)
      (img kern chan r : Z) (st : conv_state) :
  stride1_wf L -> cs_a st = a -> cs_kernels st = kernels ->
  let st' := conv2d_row_body L img kern chan r r st in
  cs_a st' = a
  /\ cs_kernels st' = kernels
  /\ (forall c, 0 <= c < result_width L ->
        cs_result st' (result_index L chan r c)
        = pixel_spec L a kernels img kern chan r c)
  /\ (forall idx,
        ~ (result_index L chan r 0 <= idx
           < result_index L chan r 0 + result_width L) ->
        cs_result st' idx = cs_result st idx).
Proof.
  intros Hwf Ha Hker st'.
  destruct (end_col_stride1 L Hwf) as (HG0 & HG1 & HG2).
  assert (HP : row_progress L a kernels img kern chan r st (end_col L)
                 (for_loop (end_col L) (conv2d_col L img kern chan r r)
                           (st, 0))).
  { apply for_loop_ind; [exact HG0 | |].
    - unfold row_progress, VECTOR_SIZE. cbn [fst snd].
      repeat split; auto; intros; lia.
    - intros g [t oc] Hg (Ha' & Hk' & Hoc & Hpix & Hfr).
      cbn [fst snd] in Ha', Hk', Hoc, Hpix, Hfr.
      assert (Hlt : VECTOR_SIZE * g < result_width L)
        by (unfold VECTOR_SIZE in *; lia).
      rewrite (Hoc Hlt).
      destruct (conv2d_col_stride1 L a kernels img kern chan r g t
                                   Hwf Ha' Hk' ltac:(lia) Hlt)
        as (Ha2 & Hk2 & Hoc2 & Hpix2 & Hfr2).
      unfold row_progress. split; [exact Ha2|]. split; [exact Hk2|].
      split; [|split].
      + intros Hnext. rewrite Hoc2.
        replace (VECTOR_SIZE * (g + 1) <? result_width L) with true
          by (symmetry; apply Z.ltb_lt; exact Hnext).
        reflexivity.
      + intros c Hc Hcw. unfold VECTOR_SIZE in *.
        destruct (Z.lt_ge_cases c (8 * g)) as [Hold|Hnew].
        * rewrite Hfr2; [apply Hpix; lia|].
          unfold result_index. lia.
        * replace c with (8 * g + (c - 8 * g)) by lia.
          apply Hpix2; lia.
      + intros idx Hidx. rewrite Hfr2; [apply Hfr; exact Hidx|].
        unfold result_index, VECTOR_SIZE in *. lia. }
  destruct HP as (Ha' & Hk' & _ & Hpix & Hfr).
  unfold st', conv2d_row_body.
  split; [exact Ha'|]. split; [exact Hk'|]. split.
  - intros c Hc. apply Hpix; [unfold VECTOR_SIZE in *|]; lia.
  - exact Hfr.
Qed.

Lemma conv2d_row_inv_exit (L : layer_t) (img kern chan : Z)
      (P : Z -> Z -> conv_state -> Prop) :
  0 < k_stride L ->
  (forall in_row out_row st,
     P in_row out_row st -> in_row < end_row L ->
     P (in_row + row_stride L) (out_row + 1)
       (conv2d_row_body L img kern chan in_row out_row st)) ->
  forall (fuel : nat) (in_row out_row : Z) (st : conv_state),
    (Z.to_nat (end_row L - in_row) <= fuel)%nat ->
    P in_row out_row st ->
    exists in_row' out_row' st',
      conv2d_row fuel L img kern chan in_row out_row st = Some st'
      /\ P in_row' out_row' st' /\ end_row L <= in_row'.
Proof.
  intros Hst Hstep.
  induction fuel as [|f IH]; intros in_row out_row st Hf HP; simpl.
  - destruct (in_row <? end_row L) eqn:E.
    + apply Z.ltb_lt in E. lia.
    + apply Z.ltb_ge in E. eauto 6.
  - destruct (in_row <? end_row L) eqn:E.
    + apply Z.ltb_lt in E. apply IH.
      * unfold row_stride. lia.
      * apply Hstep; assumption.
    + apply Z.ltb_ge in E. eauto 6.
Qed.

(** A call on a stride-1 layer: it returns, the inputs are as they were
    and every pixel holds its value. *)
Lemma stride1_run (fuel : nat) (a kernels : fbuf) (img kern chan : Z)
      (L : layer_t) (result : fbuf) :
  stride1_wf L -> (row_fuel L <= fuel)%nat ->
  exists st',
    convolution2d_smiv_1kernel_1channel_simd_fxp
      fuel a kernels img kern chan L result = Some st'
    /\ cs_a st' = a /\ cs_kernels st' = kernels
    /\ forall orow ocol,
         0 <= orow < end_row L -> 0 <= ocol < result_width L ->
         cs_result st' (result_index L chan orow ocol)
         = pixel_spec L a kernels img kern chan orow ocol.
Proof.
  intros Hwf Hf. unfold convolution2d_smiv_1kernel_1channel_simd_fxp.
  pose proof (s1_stride _ Hwf) as Hst.
  set (P := fun (in_row out_row : Z) (st : conv_state) =>
              in_row = out_row /\ 0 <= out_row
              /\ cs_a st = a /\ cs_kernels st = kernels
              /\ forall orow ocol,
                   0 <= orow < out_row -> 0 <= ocol < result_width L ->
                   cs_result st (result_index L chan orow ocol)
                   = pixel_spec L a kernels img kern chan orow ocol).
  destruct (conv2d_row_inv_exit L img kern chan P ltac:(rewrite Hst; lia))
    with (fuel := fuel) (in_row := 0) (out_row := 0)
         (st := mk_conv_state a kernels result [])
    as (ir & or & st' & Hrun & HP & Hexit).
  - intros in_row out_row st (Hio & Hor & Ha & Hk & Hdone) Hlt. subst in_row.
    destruct (conv2d_row_body_stride1 L a kernels img kern chan
                                      out_row st Hwf Ha Hk)
      as (Ha' & Hk' & Hpix & Hfr).
    unfold P, row_stride. rewrite Hst.
    split; [reflexivity|]. split; [lia|].
    split; [exact Ha'|]. split; [exact Hk'|].
    intros orow ocol Ho Hc.
    destruct (Z.eq_dec orow out_row) as [->|Hne].
    + apply Hpix. exact Hc.
    + rewrite Hfr; [apply Hdone; lia|].
      pose proof (s1_pad _ Hwf) as Hpad.
      unfold result_index, result_padded_width.
      set (X := chan * result_height L).
      assert (0 <= result_width L) by lia.
      nia.
  - unfold row_fuel in Hf. rewrite Z.sub_0_r. exact Hf.
  - unfold P. cbn [cs_a cs_kernels cs_result].
    repeat split; auto; intros; lia.
  - exists st'. split; [exact Hrun|].
    destruct HP as (Hio & _ & Ha & Hk & Hdone). subst ir.
    split; [exact Ha|]. split; [exact Hk|].
    intros orow ocol Ho Hc. apply Hdone; lia.
Qed.

(** X8.  On a stride-1 layer the call returns and every pixel of the
    output holds the convolution of its window, accumulated as the datapath
    does: kernel row by kernel row, four columns at a time, the narrow
    kernel of double-throughput mode by one pipe, the wide kernel of
    single-throughput mode by two pipes whose partial sums are added. *)
Theorem convolution2d_stride1_pixels (fuel : nat) (a kernels : fbuf)
        (img kern chan : Z) (curr_layer : layer_t) (result : fbuf) :
  stride1_wf curr_layer -> (row_fuel curr_layer <= fuel)%nat ->
  exists st',
    convolution2d_smiv_1kernel_1channel_simd_fxp
      fuel a kernels img kern chan curr_layer result = Some st'
    /\ forall orow ocol,
         0 <= orow < end_row curr_layer ->
         0 <= ocol < result_width curr_layer ->
         cs_result st' (result_index curr_layer chan orow ocol)
         = pixel_spec curr_layer a kernels img kern chan orow ocol.
Proof.
  intros Hwf Hf.
  destruct (stride1_run fuel a kernels img kern chan curr_layer result Hwf Hf)
    as (st' & Hrun & _ & _ & Hpix).
  exists st'. split; [exact Hrun | exact Hpix].
Qed.

Lemma stride1_layer_stride1_wf : stride1_wf stride1_layer.
Proof.
  constructor; try exact stride1_layer_input_wf;
    vm_compute; intuition congruence.
Qed.

Lemma convolution2d_stride1_pixels_witness :
  exists st',
    convolution2d_smiv_1kernel_1channel_simd_fxp
      4 ones_buf ones_buf 0 0 0 stride1_layer zero_buf = Some st'
    /\ cs_result st' (result_index stride1_layer 0 2 3)
       = pixel_spec stride1_layer ones_buf ones_buf 0 0 0 2 3.
Proof.
  destruct (convolution2d_stride1_pixels
              4 ones_buf ones_buf 0 0 0 stride1_layer zero_buf
              stride1_layer_stride1_wf ltac:(vm_compute; lia))
    as (st' & Hrun & Hpix).
  exists st'. split; [exact Hrun|].
  apply Hpix; vm_compute; intuition congruence.
Defined.

(** *** Zero activations *)

Lemma fmul_finite_zero (w x : float32) :
  is_finite w = true -> is_zero x = true -> is_zero (fmul w x) = true.
Proof.
  destruct w as [sw|sw| |sw mw ew]; destruct x as [sx|sx| |sx mx ex];
    simpl; intros Hw Hx; try discriminate; reflexivity.
Qed.

Lemma fadd_zero_zero (x : float32) :
  is_zero x = true -> fadd fzero x = fzero.
Proof. destruct x as [[|]| | |]; simpl; intros H; try discriminate; reflexivity. Qed.

Lemma pixel_spec_zero (L : layer_t) (a kernels : fbuf)
      (img kern chan orow ocol : Z) :
  (forall i, is_zero (a i) = true) ->
  (forall i, is_finite (kernels i) = true) ->
  pixel_spec L a kernels img kern chan orow ocol = fzero.
Proof.
  intros Hz Hfin.
  assert (Hw : forall kr j, is_finite (weight_at L kernels kern chan kr j)
                            = true).
  { intros kr j. unfold weight_at.
    destruct (j <? k_width L); [apply Hfin | reflexivity]. }
  assert (Ht : forall row g t, is_zero (tap L a img chan row g t) = true).
  { intros row g t. unfold tap.
    destruct ((VECTOR_SIZE <=? t) && suppressed L g);
      [reflexivity | apply Hz]. }
  assert (Hmac : forall row kr g woff toff,
             mac_row L a kernels img kern chan row kr g woff toff fzero
             = fzero).
  { intros row kr g woff toff. unfold mac_row.
    apply (for_loop_inv (fun acc => acc = fzero)); [reflexivity|].
    intros j acc _ ->. apply fadd_zero_zero. apply fmul_finite_zero; auto. }
  assert (Hchain : forall g woff toff n,
             partial_chain L a kernels img kern chan orow g woff toff n
             = fzero).
  { intros g woff toff n. unfold partial_chain.
    apply (for_loop_inv (fun acc => acc = fzero)); [reflexivity|].
    intros kr acc _ ->. apply Hmac. }
  unfold pixel_spec. rewrite !Hchain.
  destruct (double_tp L); reflexivity.
Qed.

(** X9.  On a stride-1 layer, with activations that are all zero (of
    either sign) and weights that are all finite, a call leaves positive
    zero in every pixel of the output, whatever the result buffer held. *)
Theorem convolution2d_stride1_zero_input (fuel : nat) (a kernels : fbuf)
        (img kern chan : Z) (curr_layer : layer_t) (result : fbuf) :
  stride1_wf curr_layer -> (row_fuel curr_layer <= fuel)%nat ->
  (forall i, is_zero (a i) = true) ->
  (forall i, is_finite (kernels i) = true) ->
  exists st',
    convolution2d_smiv_1kernel_1channel_simd_fxp
      fuel a kernels img kern chan curr_layer result = Some st'
    /\ forall orow ocol,
         0 <= orow < end_row curr_layer ->
         0 <= ocol < result_width curr_layer ->
         cs_result st' (result_index curr_layer chan orow ocol) = fzero.
Proof.
  intros Hwf Hf Hz Hfin.
  destruct (stride1_run fuel a kernels img kern chan curr_layer result Hwf Hf)
    as (st' & Hrun & _ & _ & Hpix).
  exists st'. split; [exact Hrun|].
  intros orow ocol Ho Hc. rewrite Hpix by assumption.
  apply pixel_spec_zero; assumption.
Qed.

Lemma convolution2d_stride1_zero_input_witness :
  exists st',
    convolution2d_smiv_1kernel_1channel_simd_fxp
      4 zero_buf ones_buf 0 0 0 stride1_layer ones_buf = Some st'
    /\ cs_result st' (result_index stride1_layer 0 3 3) = fzero.
Proof.
  destruct (convolution2d_stride1_zero_input
              4 zero_buf ones_buf 0 0 0 stride1_layer ones_buf
              stride1_layer_stride1_wf ltac:(vm_compute; lia)
              ltac:(intros; reflexivity) ltac:(intros; reflexivity))
    as (st' & Hrun & Hpix).
  exists st'. split; [exact Hrun|].
  apply Hpix; vm_compute; intuition congruence.
Defined.

End ConvCorrect.

(** ** The forward pass: where the output ends *)

Section PingPong.
Variable world : Type.
Variable run_layer_skip_activation_func :
  ptr -> ptr -> list layer_t -> Z -> ptr -> ptr -> world -> world * ptr.
Variable dmaStore : ptr -> world -> world.

(** The layers that leave their output in the buffer handed to them as
    [result] (the others leave it in the one handed as [activations], as a
    convolution with padding does). *)
Variable swaps : Z -> bool.

Hypothesis run_layer_swaps :
  forall activations weights layers layer_num result sigmoid_table w,
    snd (run_layer_skip_activation_func
           activations weights layers layer_num result sigmoid_table w)
    = if swaps layer_num then result else activations.

Lemma count_swaps_succ (n : Z) :
  0 <= n ->
  count_swaps swaps (n + 1)
  = if swaps n then count_swaps swaps n + 1 else count_swaps swaps n.
Proof.
  intros Hn. unfold count_swaps.
  exact (for_loop_succ (fun l c => if swaps l then c + 1 else c) n 0 Hn).
Qed.

Lemma nnet_fwd_loop_parity (activations_d weights_d result_d : ptr)
      (network : Smiv.network_t) (sigmoid_table : ptr) (w : world) (n : Z) :
  activations_d <> result_d -> 0 <= n ->
  snd (Smiv.nnet_fwd_loop world run_layer_skip_activation_func
                          activations_d weights_d result_d network
                          sigmoid_table n w)
  = if Z.even (count_swaps swaps n) then activations_d else result_d.
Proof.
  intros Hne Hn. unfold Smiv.nnet_fwd_loop.
  set (body := Smiv.nnet_fwd_outer world run_layer_skip_activation_func
                 activations_d weights_d result_d network sigmoid_table).
  assert (G : forall m : nat,
             snd (for_loop (Z.of_nat m) body (w, activations_d))
             = if Z.even (count_swaps swaps (Z.of_nat m))
               then activations_d else result_d).
  { induction m as [|m IH].
    - reflexivity.
    - rewrite Nat2Z.inj_succ. unfold Z.succ.
      rewrite for_loop_succ, count_swaps_succ by lia.
      destruct (for_loop (Z.of_nat m) body (w, activations_d)) as [wm loc].
      cbn [snd] in IH. unfold body, Smiv.nnet_fwd_outer, Smiv.run_layer.
      rewrite IH.
      destruct (Z.even (count_swaps swaps (Z.of_nat m))) eqn:Ev.
      + replace (activations_d =? result_d) with false
          by (symmetry; apply Z.eqb_neq; exact Hne).
        pose proof (run_layer_swaps activations_d weights_d
                      (Smiv.net_layers network) (Z.of_nat m) result_d
                      sigmoid_table wm) as Hr.
        destruct (run_layer_skip_activation_func
                    activations_d weights_d (Smiv.net_layers network)
                    (Z.of_nat m) result_d sigmoid_table wm) as [w' r].
        cbn [snd] in *. rewrite Hr.
        destruct (swaps (Z.of_nat m)).
        * rewrite Z.even_add, Ev. reflexivity.
        * rewrite Ev. reflexivity.
      + rewrite Z.eqb_refl.
        pose proof (run_layer_swaps result_d weights_d
                      (Smiv.net_layers network) (Z.of_nat m) activations_d
                      sigmoid_table wm) as Hr.
        destruct (run_layer_skip_activation_func
                    result_d weights_d (Smiv.net_layers network)
                    (Z.of_nat m) activations_d sigmoid_table wm) as [w' r].
        cbn [snd] in *. rewrite Hr.
        destruct (swaps (Z.of_nat m)).
        * rewrite Z.even_add, Ev. reflexivity.
        * rewrite Ev. reflexivity. }
  replace n with (Z.of_nat (Z.to_nat n)) by lia. apply G.
Qed.

(** X10.  The two buffers of [nnet_fwd] being distinct, the output of the
    network ends in the result buffer exactly when an odd number of layers
    left their output in the buffer handed to them as [result]: then the
    flag [result_in_temp] of the last layer is set and the first
    [dmaStore] is handed the result buffer; otherwise the flag is cleared
    and it is handed the activations buffer.  The machine is left as by
    that [dmaStore], applied to the machine that the loop leaves, followed
    by [dmaStore] of the layer array. *)
Theorem nnet_fwd_parity (activations_d weights_d result_d : ptr)
        (network : Smiv.network_t) (sigmoid_table : ptr) (w : world) :
  activations_d <> result_d ->
  1 <= Smiv.net_depth network <= Z.of_nat (length (Smiv.net_layers network)) ->
  let final := Smiv.nnet_fwd_loop world run_layer_skip_activation_func
                                  activations_d weights_d result_d network
                                  sigmoid_table (Smiv.net_depth network) w in
  let r := Smiv.nnet_fwd world run_layer_skip_activation_func dmaStore
                         activations_d weights_d result_d network
                         sigmoid_table w in
  let odd := Z.odd (count_swaps swaps (Smiv.net_depth network)) in
  Smiv.fr_result_loc r = (if odd then result_d else activations_d)
  /\ result_in_temp
       (layer_at (Smiv.fr_layers r) (Smiv.net_depth network - 1)) = odd
  /\ Smiv.fr_stored r = (if odd then result_d else activations_d)
  /\ Smiv.fr_world r
     = dmaStore (Smiv.net_layers_ptr network)
                (dmaStore (if odd then result_d else activations_d)
                          (fst final)).
Proof.
  intros Hne Hd final r odd.
  pose proof (nnet_fwd_loop_parity activations_d weights_d result_d network
                sigmoid_table w (Smiv.net_depth network) Hne ltac:(lia))
    as Hloc.
  change (snd final
          = if Z.even (count_swaps swaps (Smiv.net_depth network))
            then activations_d else result_d) in Hloc.
  unfold r, Smiv.nnet_fwd. fold final. clearbody final.
  destruct final as [wf loc].
  cbn [snd fst] in *.
  cbn [Smiv.fr_result_loc Smiv.fr_layers Smiv.fr_stored Smiv.fr_world].
  unfold odd. rewrite <- Z.negb_even.
  assert (Hflag : (loc =? result_d)
                  = negb (Z.even (count_swaps swaps (Smiv.net_depth network)))).
  { rewrite Hloc.
    destruct (Z.even (count_swaps swaps (Smiv.net_depth network))); simpl.
    - apply Z.eqb_neq. exact Hne.
    - apply Z.eqb_refl. }
  split; [|split; [|split]].
  - rewrite Hloc.
    destruct (Z.even (count_swaps swaps (Smiv.net_depth network)));
      reflexivity.
  - unfold set_result_in_temp.
    replace ((0 <=? Smiv.net_depth network - 1)
             && (Smiv.net_depth network - 1
                 <? Z.of_nat (length (Smiv.net_layers network))))
      with true
      by (symmetry; apply andb_true_iff; split;
          [apply Z.leb_le | apply Z.ltb_lt]; lia).
    unfold layer_at at 1. rewrite nth_upd_eq by lia.
    cbn [result_in_temp]. exact Hflag.
  - rewrite Hflag.
    destruct (Z.even (count_swaps swaps (Smiv.net_depth network)));
      reflexivity.
  - rewrite Hflag.
    destruct (Z.even (count_swaps swaps (Smiv.net_depth network)));
      reflexivity.
Qed.
End PingPong.

Lemma three_layers_run_swaps :
  forall activations weights layers layer_num result sigmoid_table w,
    snd (three_layers_run
           activations weights layers layer_num result sigmoid_table w)
    = if three_layers_swaps layer_num then result else activations.
Proof.
  intros. unfold three_layers_run, three_layers_swaps, log_run_layer.
  destruct (c_padding (layer_at (Smiv.net_layers three_layers) layer_num)
            >? 0); reflexivity.
Qed.

Lemma nnet_fwd_parity_witness :
  let r := Smiv.nnet_fwd log_world three_layers_run log_dmaStore
                         100 200 300 three_layers 500 [] in
  Smiv.fr_world r
  = [EvDmaStore 400; EvDmaStore 100; EvRunLayer 2 300 100;
     EvRunLayer 1 100 300; EvRunLayer 0 100 300]
  /\ result_in_temp (layer_at (Smiv.fr_layers r) 2) = false.
Proof.
  destruct (nnet_fwd_parity
              log_world three_layers_run log_dmaStore three_layers_swaps
              three_layers_run_swaps 100 200 300 three_layers 500 [])
    as (_ & Hflag & _ & Hworld).
  - vm_compute. congruence.
  - vm_compute. intuition congruence.
  - split; [exact Hworld | exact Hflag].
Defined.

(** ** The graph scheduler: what runs, whatever the graph *)

Section RunEdge.
Variables Vertex Operator Tensor world : Type.
Variable topological_sort :
  Scheduler.Graph Vertex Operator -> option (list Vertex).
Variable run : Operator -> world -> world.
Variable getOutput : Operator -> Z -> world -> Tensor.

(** X11.  [runNetwork] runs the operators of the vertices that
    [topological_sort] wrote, each as often as it was written, in the
    reverse of the order of writing, with no condition on the graph; when
    the sort throws, no operator runs; and the variable [output] is
    returned without ever being assigned exactly when the sort wrote no
    vertex (a graph without vertices). *)
Theorem runNetwork_runs_written (graph : Scheduler.Graph Vertex Operator)
        (w : world) :
  match topological_sort graph with
  | None =>
      Scheduler.runNetwork Vertex Operator Tensor world
                           topological_sort run getOutput graph w = None
  | Some written =>
      exists s,
        Scheduler.runNetwork Vertex Operator Tensor world
                             topological_sort run getOutput graph w = Some s
        /\ Scheduler.rs_ran s = rev written
        /\ Scheduler.rs_world s
           = fold_left (fun w v => run (Scheduler.g_vertex_op graph v) w)
                       (rev written) w
        /\ (Scheduler.rs_output s = None <-> written = [])
  end.
Proof.
  unfold Scheduler.runNetwork.
  destruct (topological_sort graph) as [written|]; [|reflexivity].
  eexists. split; [reflexivity|].
  unfold Scheduler.front_inserter.
  rewrite front_inserter_rev, app_nil_r.
  destruct (run_vertices Vertex Operator Tensor world run getOutput graph
                         (rev written) (Scheduler.mk_run_state w None []))
    as (Hr & Hw & Ho).
  cbn [Scheduler.rs_ran Scheduler.rs_world Scheduler.rs_output] in Hr, Hw, Ho.
  split; [exact Hr|]. split; [exact Hw|].
  rewrite Ho, rev_involutive.
  destruct written as [|v t]; split; intros H; try reflexivity;
    try discriminate.
Qed.
End RunEdge.
